(** * SpacyNLP: the component that links spaCy to a Rasa NLU pipeline

    A shallow embedding of [rasa/nlu/utils/spacy_utils.py].

    - Python [str] is [string].  [lower] is [str.lower] on ASCII texts,
      which is what the examples and scenarios use; what is said of
      lower-casing in general is said of an arbitrary [str_lower].
    - Python [int] positions are [Z].
    - [Optional[T]] is [option T]; [None] is [None].
    - Exceptions and the calls that leave the component (the deprecation
      warning, [spacy.load], [nlp.pipe], [nlp(text)]) are threaded through
      a small monad: a computation yields the trace of external calls it
      made together with either the raised exception or its value.
    - The [dict] built by [merge_content_lists] is a [gmap Z _]; its items
      are only ever read through [sorted], so insertion order is
      irrelevant. *)

From Stdlib Require Import Ascii.
From stdpp Require Import gmap strings list fin_maps sorting.

Set Default Proof Using "Type".

(** ** Python strings *)

Definition lower_ascii (c : ascii) : ascii :=
  let n := nat_of_ascii c in
  if (65 <=? n) && (n <=? 90) then ascii_of_nat (n + 32) else c.

(** [str.lower()], on the ASCII range. *)
Fixpoint lower (s : string) : string :=
  match s with
  | EmptyString => EmptyString
  | String c s' => String (lower_ascii c) (lower s')
  end.

(** The newline escape of Python string literals. *)
Definition nl : string := String (ascii_of_nat 10) EmptyString.

(** Truthiness of an [Optional[Text]]: [None] and the empty string are
    falsy. *)
Definition truthy (o : option string) : bool :=
  match o with
  | None => false
  | Some EmptyString => false
  | Some (String _ _) => true
  end.

(** ** spaCy objects, as far as the component looks into them *)

(** [spacy.vocab.Vocab]: opaque, identified by the strings it holds. *)
Record Vocab := { vocab_strings : list string }.

(** [spacy.tokens.Doc]: the component only builds the empty document
    [Doc(vocab)] and asks a document for its [len], the number of tokens. *)
Record Doc := { doc_vocab : Vocab; doc_tokens : list string }.

(** [Doc(vocab)]: a document without words. *)
Definition Doc_ (v : Vocab) : Doc := {| doc_vocab := v; doc_tokens := [] |}.

(** [spacy.language.Language]: [path] is [None] when the model was not
    read from disk; [call] is [nlp(text)] and [pipe] is
    [nlp.pipe(texts, batch_size=...)] drained into a list. *)
Record Language := {
  path : option string;
  lang : string;
  vocab : Vocab;
  call : string → Doc;
  pipe : list string → Z → list Doc;
}.

(** ** Exceptions, external calls and the monad that threads them *)

Inductive exn :=
  | InvalidModelError (msg : string)
  | Exception (msg : string)
  | AttributeError (msg : string)
  | TypeError (msg : string)
  | KeyError (key : string)
  | IndexError (idx : nat)
  | OtherException (class_name message : string).

Inductive event :=
  | EvDeprecationWarning (message docs : string)
  | EvSpacyLoad (spacy_model_name : string)
  | EvPipe (texts : list string) (batch_size : Z)
  | EvNlp (text : string).

Definition M (A : Type) : Type := list event * (exn + A).

Definition ret {A} (a : A) : M A := ([], inr a).
Definition raise {A} (e : exn) : M A := ([], inl e).
Definition emit (ev : event) : M unit := ([ev], inr tt).

Definition bind {A B} (m : M A) (k : A → M B) : M B :=
  match m with
  | (t, inl e) => (t, inl e)
  | (t, inr a) => let '(t', r) := k a in (t ++ t', r)
  end.

Notation "'let*' x ':=' m 'in' k" := (bind m (λ x, k))
  (at level 10, x pattern, m at level 100, k at level 200).

Definition is_pipe_call (ev : event) : bool :=
  match ev with EvPipe _ _ => true | _ => false end.

(** How often a trace calls [nlp.pipe]. *)
Definition pipe_calls (t : list event) : nat :=
  length (filter (λ ev, is_pipe_call ev) t).

(** The external calls made by a computation, and what it ended with. *)
Definition trace {A} (m : M A) : list event := m.1.
Definition outcome {A} (m : M A) : exn + A := m.2.

(** ** The component *)

(** [component_config]: the two keys the component reads.  A key that is
    absent reads as [None] through [dict.get], which is [None] for [model]
    and falsy for [case_sensitive]. *)
Record Config := { model : option string; case_sensitive : bool }.

(** [SpacyNLP.defaults] *)
Definition defaults : Config := {| model := None; case_sensitive := false |}.

(** An instance: [self.component_config] and [self.nlp] (which
    [__init__] lets default to [None]). *)
Record SpacyNLP := cls { component_config : Config; nlp : option Language }.

(** What [import spacy; spacy.load(...)] does for a model name: it raises
    [OSError] (or a subclass of it), or it raises an exception that
    [except OSError] does not catch, or it hands back a handle. *)
Inductive load_result :=
  | OSError
  | Raises (e : exn)
  | Loaded (handle : option Language).

(** What the dict of [merge_content_lists] holds under a position: the
    text it was filled with first, or the document that replaced it. *)
Inductive value :=
  | VText (text : string)
  | VDoc (doc : Doc).

(** Modelled from the spec: the example type
    (rasa.shared.nlu.training_data.message.Message) is not part of the
    sources at hand; an example is a store of properties read with [get]
    and written with [set].  The text-valued properties and the slots that
    receive what [merge_content_lists] hands back are kept apart by type,
    which is the store of the code as long as no slot name of [SPACY_DOCS]
    is the name of a dense featurizable attribute. *)
Record Message := {
  data : gmap string string;
  docs : gmap string value;
}.

Definition Message_get (m : Message) (prop : string) : option string :=
  data m !! prop.

Definition Message_set (m : Message) (prop : string) (info : value) : Message :=
  {| data := data m; docs := <[prop := info]> (docs m) |}.

(** [len(x)] for what a slot may hold. *)
Definition len (v : value) : nat :=
  match v with
  | VText s => String.length s
  | VDoc d => length (doc_tokens d)
  end.

Definition key_le {V} (a b : Z * V) : Prop := (a.1 ≤ b.1)%Z.

Global Instance key_le_dec {V} : RelDecision (@key_le V).
Proof. intros a b. unfold key_le. apply _. Defined.

(** [sorted(items)] on [(int, _)] tuples whose first components are
    pairwise different (they are the keys of a dict): the order is decided
    by the first component alone. *)
Definition sorted {V} (items : list (Z * V)) : list (Z * V) :=
  merge_sort key_le items.

(** [dict(pairs)]: later pairs overwrite earlier ones. *)
Definition dict {V} (pairs : list (Z * V)) : gmap Z V :=
  foldl (λ d kv, <[kv.1 := kv.2]> d) ∅ pairs.

(** [d.update(other)]: the entries of [other] win. *)
Definition dict_update {V} (d other : gmap Z V) : gmap Z V := other ∪ d.

(** [enumerate(xs)] *)
Definition enumerate {A} (xs : list A) : list (Z * A) :=
  imap (λ i x, (Z.of_nat i, x)) xs.

(** [zip(xs, ys)], which stops at the shorter list, followed by the tuple
    construction of the comprehensions. *)
Definition zip_positions {A} (samples : list (Z * A)) (ds : list Doc)
  : list (Z * Doc) :=
  zip_with (λ sample doc, (sample.1, doc)) samples ds.

Section SpacyNLP.

(** Constants of the host that the file imports. *)
Variable DOCS_URL_COMPONENTS : string.
Variable DENSE_FEATURIZABLE_ATTRIBUTES : list string.
Variable SPACY_DOCS : string → string.
(** [cls.name], the component type's name. *)
Variable cls_name : string.
(** [spacy.load(name, disable=["parser"])] *)
Variable spacy_load : string → load_result.

Definition model_not_available_message (spacy_model_name : string) : string :=
  "Please confirm that " +:+ spacy_model_name +:+ " is an available spaCy model. "
  +:+ "You need to download one upfront. For example:" +:+ nl
  +:+ "python -m spacy download en_core_web_md" +:+ nl
  +:+ "More informaton can be found on " +:+ DOCS_URL_COMPONENTS +:+ "#spacynlp".

(** [load_model]: try loading the model, catching the [OSError] if
    missing. *)
Definition load_model (spacy_model_name : string) : M (option Language) :=
  let* _ := emit (EvSpacyLoad spacy_model_name) in
  match spacy_load spacy_model_name with
  | Loaded handle => ret handle
  | Raises e => raise e
  | OSError => raise (InvalidModelError (model_not_available_message spacy_model_name))
  end.

Definition fallback_mapping : gmap string string :=
  list_to_map [
    ("zh", "zh_core_web_md");
    ("da", "da_core_news_md");
    ("nl", "nl_core_news_md");
    ("en", "en_core_web_md");
    ("fr", "fr_core_news_md");
    ("de", "de_core_news_sm");
    ("el", "el_core_news_md");
    ("it", "it_core_news_md");
    ("ja", "ja_core_news_md");
    ("lt", "lt_core_news_md");
    ("mk", "mk_core_news_md");
    ("nb", "nb_core_news_md");
    ("pl", "pl_core_news_md");
    ("pt", "pt_core_news_md");
    ("ro", "ro_core_news_md");
    ("ru", "ru_core_news_md");
    ("es", "es_core_news_md")
  ].

Definition no_fallback_message (language_name : string) : string :=
  "There is no fallback model for language '" +:+ language_name +:+ "'. "
  +:+ "Please add a `model` property to `SpacyNLP` manually to prevent this. "
  +:+ "More informaton can be found on " +:+ DOCS_URL_COMPONENTS +:+ "#spacynlp".

Definition fallback_warning_message (spacy_model_name : string) : string :=
  "SpaCy model is not properly configured! Please add a `model` property to `SpacyNLP`. "
  +:+ "Will use '" +:+ spacy_model_name +:+ "' as a fallback spaCy model. "
  +:+ "This fallback will be deprecated in Rasa 3.0".

(** [_check_model_fallback]: checks if the [spacy_model_name] is missing;
    if it is, a fallback is attempted. *)
Definition _check_model_fallback
    (spacy_model_name : option string) (language_name : string) (warn : bool)
  : M string :=
  match spacy_model_name with
  | Some (String c s) => ret (String c s)
  | _ =>
    match fallback_mapping !! language_name with
    | None => raise (InvalidModelError (no_fallback_message language_name))
    | Some spacy_model_name =>
      let* _ :=
        if warn
        then emit (EvDeprecationWarning
                     (fallback_warning_message spacy_model_name)
                     (DOCS_URL_COMPONENTS +:+ "#spacynlp"))
        else ret tt in
      ret spacy_model_name
    end
  end.

(** [cache_key(component_meta, model_metadata)], given
    [component_meta.get("model")] through the configuration and
    [model_metadata.language]. *)
Definition cache_key (component_meta : Config) (language : string) : M string :=
  let* spacy_model_name :=
    _check_model_fallback (model component_meta) language false in
  ret (cls_name +:+ "-" +:+ spacy_model_name).

Definition null_provider_message : string :=
  "Failed to load spacy language model. "
  +:+ "Loading the model returned 'None'.".

Definition stub_provider_message (lang : string) : string :=
  "Failed to load spacy language model for "
  +:+ "lang '" +:+ lang +:+ "'. Make sure you have downloaded the "
  +:+ "correct model (https://spacy.io/docs/usage/).".

(** [ensure_proper_language_model]: checks if the spacy language model is
    properly loaded; raises an exception if the model is invalid. *)
Definition ensure_proper_language_model (nlp : option Language) : M unit :=
  match nlp with
  | None => raise (Exception null_provider_message)
  | Some l =>
    match path l with
    | None => raise (Exception (stub_provider_message (lang l)))
    | Some _ => ret tt
    end
  end.

(** [load(meta, model_dir, model_metadata, cached_component)], given
    [model_metadata.language].  A component instance is truthy. *)
Definition load (meta : Config) (language : string)
    (cached_component : option SpacyNLP) : M SpacyNLP :=
  match cached_component with
  | Some component => ret component
  | None =>
    let* model_name := _check_model_fallback (model meta) language true in
    let* nlp := load_model model_name in
    let* _ := ensure_proper_language_model nlp in
    ret (cls meta nlp)
  end.

(** [preprocess_text]: processes the text before it is handled by
    spaCy. *)
Definition preprocess_text (self : SpacyNLP) (text : option string) : string :=
  let text := match text with None => EmptyString | Some text => text end in
  if case_sensitive (component_config self) then text else lower text.

(** [preprocess_text] again, with the [str.lower] of the language left
    open: [preprocess_text] is [preprocess_text_with lower]. *)
Definition preprocess_text_with
    (str_lower : string → string) (self : SpacyNLP) (text : option string)
  : string :=
  let text := match text with None => EmptyString | Some text => text end in
  if case_sensitive (component_config self) then text else str_lower text.

(** [doc_for_text]: makes a spaCy doc object from a string of text. *)
Definition doc_for_text (self : SpacyNLP) (text : string) : M Doc :=
  match nlp self with
  | None => raise (TypeError "'NoneType' object is not callable")
  | Some l =>
    let* _ := emit (EvNlp (preprocess_text self (Some text))) in
    ret (call l (preprocess_text self (Some text)))
  end.

Definition get_text (self : SpacyNLP) (example : Message) (attribute : string)
  : string :=
  preprocess_text self (Message_get example attribute).

(** [merge_content_lists]: merge lists with processed Docs back into their
    original order.  The dict first holds the texts and then, under the
    same keys, the documents. *)
Definition merge_content_lists
    (indexed_training_samples : list (Z * string))
    (doc_lists : list (Z * Doc)) : list (Z * value) :=
  let dct := dict (prod_map id VText <$> indexed_training_samples) in
  let dct := dict_update dct (dict (prod_map id VDoc <$> doc_lists)) in
  sorted (map_to_list dct).

(** [filter_training_samples_by_content]: separates empty training samples
    from content bearing ones. *)
Definition filter_training_samples_by_content
    (indexed_training_samples : list (Z * string))
  : list (Z * string) * list (Z * string) :=
  let docs_to_pipe :=
    filter (λ training_sample, training_sample.2 ≠ EmptyString)
           indexed_training_samples in
  let empty_docs :=
    filter (λ training_sample, training_sample.2 = EmptyString)
           indexed_training_samples in
  (docs_to_pipe, empty_docs).

(** [process_content_bearing_samples]: sends content bearing training
    samples to spaCy's pipe.  The call to [nlp.pipe] is made whatever the
    list holds. *)
Definition process_content_bearing_samples
    (self : SpacyNLP) (samples_to_pipe : list (Z * string))
  : M (list (Z * Doc)) :=
  match nlp self with
  | None => raise (AttributeError "'NoneType' object has no attribute 'pipe'")
  | Some l =>
    let texts := samples_to_pipe.*2 in
    let* _ := emit (EvPipe texts 50) in
    ret (zip_positions samples_to_pipe (pipe l texts 50))
  end.

(** [process_non_content_bearing_samples]: creates empty Doc-objects from
    zero-lengthed training samples strings.  [self.nlp.vocab] is read once
    per sample. *)
Definition process_non_content_bearing_samples
    (self : SpacyNLP) (empty_samples : list (Z * string))
  : M (list (Z * Doc)) :=
  match empty_samples, nlp self with
  | [], _ => ret []
  | _ :: _, None =>
    raise (AttributeError "'NoneType' object has no attribute 'vocab'")
  | _ :: _, Some l =>
    ret (zip_positions empty_samples ((λ _, Doc_ (vocab l)) <$> empty_samples))
  end.

(** The body of the loop of [docs_for_training_data] from the partition to
    the merge, which yields the local [attribute_document_list]. *)
Definition attribute_document_list
    (self : SpacyNLP) (indexed_training_samples : list (Z * string))
  : M (list (Z * value)) :=
  let '(samples_to_pipe, empty_samples) :=
    filter_training_samples_by_content indexed_training_samples in
  let* content_bearing_docs :=
    process_content_bearing_samples self samples_to_pipe in
  let* non_content_bearing_docs :=
    process_non_content_bearing_samples self empty_samples in
  ret (merge_content_lists indexed_training_samples
         (content_bearing_docs ++ non_content_bearing_docs)).

(** The head of that loop body: the local [indexed_training_samples]. *)
Definition indexed_training_samples
    (self : SpacyNLP) (training_examples : list Message) (attribute : string)
  : list (Z * string) :=
  let texts := (λ e, get_text self e attribute) <$> training_examples in
  enumerate texts.

(** One round of the loop of [docs_for_training_data]: the value stored
    under [attribute]. *)
Definition docs_for_attribute
    (self : SpacyNLP) (training_examples : list Message) (attribute : string)
  : M (list value) :=
  let* attribute_document_list :=
    attribute_document_list self
      (indexed_training_samples self training_examples attribute) in
  ret (attribute_document_list.*2).

Fixpoint docs_for_attributes
    (self : SpacyNLP) (training_examples : list Message)
    (attributes : list string) (attribute_docs : gmap string (list value))
  : M (gmap string (list value)) :=
  match attributes with
  | [] => ret attribute_docs
  | attribute :: attributes =>
    let* ds := docs_for_attribute self training_examples attribute in
    docs_for_attributes self training_examples attributes
      (<[attribute := ds]> attribute_docs)
  end.

Definition docs_for_training_data
    (self : SpacyNLP) (training_examples : list Message)
  : M (gmap string (list value)) :=
  docs_for_attributes self training_examples DENSE_FEATURIZABLE_ATTRIBUTES ∅.

(** The [if] statement in the loops of [train]: a document with tokens is
    set on the example, any other is not. *)
Definition attach_doc
    (attribute : string) (example_attribute_doc : value) (example : Message)
  : Message :=
  if bool_decide (len example_attribute_doc ≠ 0)
  then Message_set example (SPACY_DOCS attribute) example_attribute_doc
  else example.

(** One round of the inner loop of [train]: the two subscripts of
    [attribute_docs[attribute][idx]], then the [if] statement. *)
Definition train_example
    (attribute_docs : gmap string (list value)) (attribute : string)
    (idx : nat) (example : Message) : M Message :=
  let* ds :=
    match attribute_docs !! attribute with
    | Some ds => ret ds
    | None => raise (KeyError attribute)
    end in
  let* example_attribute_doc :=
    match ds !! idx with
    | Some d => ret d
    | None => raise (IndexError idx)
    end in
  ret (attach_doc attribute example_attribute_doc example).

(** The inner loop of [train] over [enumerate(training_examples)], from
    index [idx] on; the examples are updated in place. *)
Fixpoint train_examples
    (attribute_docs : gmap string (list value)) (attribute : string)
    (idx : nat) (training_examples : list Message) : M (list Message) :=
  match training_examples with
  | [] => ret []
  | example :: rest =>
    let* example := train_example attribute_docs attribute idx example in
    let* rest := train_examples attribute_docs attribute (S idx) rest in
    ret (example :: rest)
  end.

(** The outer loop of [train] over the attributes. *)
Fixpoint train_attributes
    (attribute_docs : gmap string (list value)) (attributes : list string)
    (training_examples : list Message) : M (list Message) :=
  match attributes with
  | [] => ret training_examples
  | attribute :: attributes =>
    let* training_examples :=
      train_examples attribute_docs attribute 0 training_examples in
    train_attributes attribute_docs attributes training_examples
  end.

(** [train]: yields the training examples as the loops leave them. *)
Definition train (self : SpacyNLP) (training_examples : list Message)
  : M (list Message) :=
  let* attribute_docs := docs_for_training_data self training_examples in
  train_attributes attribute_docs DENSE_FEATURIZABLE_ATTRIBUTES training_examples.

(** The loop of [process] over the attributes. *)
Fixpoint process_attributes
    (self : SpacyNLP) (attributes : list string) (message : Message)
  : M Message :=
  match attributes with
  | [] => ret message
  | attribute :: attributes =>
    match Message_get message attribute with
    | Some text =>
      if truthy (Some text)
      then
        let* doc := doc_for_text self text in
        process_attributes self attributes
          (Message_set message (SPACY_DOCS attribute) (VDoc doc))
      else process_attributes self attributes message
    | None => process_attributes self attributes message
    end
  end.

(** [process]: yields the message as the loop leaves it. *)
Definition process (self : SpacyNLP) (message : Message) : M Message :=
  process_attributes self DENSE_FEATURIZABLE_ATTRIBUTES message.

(** ** The rest of the component *)

(** [rasa.utils.train_utils.override_defaults(defaults, custom)], a
    function of the host. *)
Variable override_defaults : Config → Config → Config.

(** [create(component_config, config)], given [config.language].  The
    [logger.info] line writes to the log and is no call of the trace. *)
Definition create (component_config : Config) (language : string) : M SpacyNLP :=
  let component_config := override_defaults defaults component_config in
  let* spacy_model_name :=
    _check_model_fallback (model component_config) language true in
  let* nlp := load_model spacy_model_name in
  let* _ := ensure_proper_language_model nlp in
  ret (cls component_config nlp).

(** [provide_context]: creates a context dictionary from spaCy nlp
    object. *)
Definition provide_context (self : SpacyNLP) : gmap string (option Language) :=
  {["spacy_nlp" := nlp self]}.


(** Whether a trace event is a deprecation warning. *)
Definition is_deprecation_warning (ev : event) : bool :=
  match ev with EvDeprecationWarning _ _ => true | _ => false end.

(** ** Concrete surroundings for the examples

    The constants as rasa.nlu.constants spells them, and a provider that
    turns a non-empty text into a one-token document. *)

Definition rasa_docs_url_components : string :=
  "https://rasa.com/docs/rasa/components".

Definition rasa_attributes : list string := ["text"; "response"; "action_text"].
Definition rasa_spacy_docs (attribute : string) : string :=
  attribute +:+ "_spacy_doc".

Definition one_token_vocab : Vocab := {| vocab_strings := [] |}.

Definition one_token_doc (text : string) : Doc :=
  {| doc_vocab := one_token_vocab;
     doc_tokens := match text with EmptyString => [] | _ => [text] end |}.

Definition one_token_nlp : Language :=
  {| path := Some "/models/en_core_web_md";
     lang := "en";
     vocab := one_token_vocab;
     call := one_token_doc;
     pipe := λ texts _, one_token_doc <$> texts |}.

Definition one_token_component : SpacyNLP := cls defaults (Some one_token_nlp).

(** A [spacy.load] that has one model installed. *)
Definition one_model_spacy_load (spacy_model_name : string) : load_result :=
  if decide (spacy_model_name = "en_core_web_md")
  then Loaded (Some one_token_nlp)
  else OSError.

(** A [spacy.load] in a host where spaCy cannot be imported. *)
Definition no_spacy_load (spacy_model_name : string) : load_result :=
  Raises (OtherException "ModuleNotFoundError" "No module named 'spacy'").

(** A provider that answers every batch call with no document at all. *)
Definition silent_nlp : Language :=
  {| path := Some "/models/silent";
     lang := "en";
     vocab := one_token_vocab;
     call := one_token_doc;
     pipe := λ _ _, [] |}.

(** A provider that answers every text with a document without
    tokens. *)
Definition tokenless_nlp : Language :=
  {| path := Some "/models/tokenless";
     lang := "en";
     vocab := one_token_vocab;
     call := λ _, Doc_ one_token_vocab;
     pipe := λ texts _, (λ _, Doc_ one_token_vocab) <$> texts |}.

(** An example that only has a text. *)
Definition text_message (text : string) : Message :=
  {| data := {["text" := text]}; docs := ∅ |}.

(** * Properties *)

(** ** Text normalization *)



Lemma preprocess_text_with_lower (self : SpacyNLP) (text : option string) :
  preprocess_text self text = preprocess_text_with lower self text.
Proof. done. Qed.


(** ** Model resolution *)

Lemma check_model_fallback_explicit c s language_name warn :
  _check_model_fallback (Some (String c s)) language_name warn = ret (String c s).
Proof. done. Qed.

Lemma check_model_fallback_missing spacy_model_name language_name warn :
  truthy spacy_model_name = false →
  outcome (_check_model_fallback spacy_model_name language_name warn)
  = match fallback_mapping !! language_name with
    | Some fallback => inr fallback
    | None => inl (InvalidModelError (no_fallback_message language_name))
    end.
Proof.
  intros Hf. unfold _check_model_fallback.
  destruct spacy_model_name as [[|c s]|]; try done;
    destruct (fallback_mapping !! language_name); try done; by destruct warn.
Qed.

(** C3: [_check_model_fallback] hands back a given, non-empty model name
    as it is, whatever the fallback table holds; for a missing or empty
    name it hands back the table's entry for the language when there is
    one; and it raises [InvalidModelError] exactly when the name is
    missing or empty and the table has no entry for the language.  The
    message of the error is the text of the source around the language
    code, which it carries between quotes, and the documentation link.
    It raises no other error. *)
Theorem check_model_fallback_spec
    (spacy_model_name : option string) (language_name : string) (warn : bool) :
  let r := outcome (_check_model_fallback spacy_model_name language_name warn) in
  let error :=
    InvalidModelError
      ("There is no fallback model for language '" +:+ language_name +:+ "'. "
       +:+ "Please add a `model` property to `SpacyNLP` manually to prevent this. "
       +:+ "More informaton can be found on " +:+ DOCS_URL_COMPONENTS
       +:+ "#spacynlp") in
  (∀ name, spacy_model_name = Some name → name ≠ EmptyString → r = inr name) ∧
  (∀ fallback,
     truthy spacy_model_name = false →
     fallback_mapping !! language_name = Some fallback → r = inr fallback) ∧
  (r = inl error
   ↔ truthy spacy_model_name = false ∧ fallback_mapping !! language_name = None) ∧
  (∀ e, r = inl e → e = error).
Proof.
  intros r error. subst r.
  assert (error = InvalidModelError (no_fallback_message language_name)) as ->
    by reflexivity.
  destruct (truthy spacy_model_name) eqn:Ht.
  - destruct spacy_model_name as [[|c s]|]; try done.
    rewrite check_model_fallback_explicit. simpl. split_and!.
    + by intros name [= <-] _.
    + done.
    + split; [done|]. by intros [? _].
    + done.
  - rewrite check_model_fallback_missing by done. split_and!.
    + intros name -> Hne. by destruct name.
    + by intros fallback _ ->.
    + destruct (fallback_mapping !! language_name); [|done].
      split; [done|]. by intros [_ ?].
    + intros e. destruct (fallback_mapping !! language_name); [done|].
      by intros [= <-].
Qed.

(** ** Cache key *)

Lemma string_app_inj_r (a b c : string) : a +:+ b = a +:+ c → b = c.
Proof. induction a as [|x a IH]; simpl; [done|]. intros [= H]. by apply IH. Qed.

Lemma check_model_fallback_warn_outcome spacy_model_name language_name warn :
  outcome (_check_model_fallback spacy_model_name language_name warn)
  = outcome (_check_model_fallback spacy_model_name language_name false).
Proof.
  unfold _check_model_fallback.
  destruct spacy_model_name as [[|c s]|]; try done;
    destruct (fallback_mapping !! language_name); try done; by destruct warn.
Qed.

Lemma check_model_fallback_silent spacy_model_name language_name :
  trace (_check_model_fallback spacy_model_name language_name false) = [].
Proof.
  unfold _check_model_fallback.
  destruct spacy_model_name as [[|c s]|]; try done;
    by destruct (fallback_mapping !! language_name).
Qed.

Lemma cache_key_outcome component_meta language :
  outcome (cache_key component_meta language)
  = match outcome (_check_model_fallback (model component_meta) language false) with
    | inr resolved => inr (cls_name +:+ "-" +:+ resolved)
    | inl e => inl e
    end.
Proof.
  unfold cache_key, bind.
  destruct (_check_model_fallback _ _ _) as [t [e|resolved]]; done.
Qed.

(** C4: when resolution succeeds, [cache_key] is the component's name, a
    dash and the resolved model name; the keys of two configurations are
    equal exactly when their resolved names are; deriving a key makes no
    external call, so no fallback warning is given; and the error of a
    failing resolution is the error of [cache_key]. *)
Theorem cache_key_spec
    (component_meta component_meta' : Config) (language language' : string) :
  let resolve meta lang warn := outcome (_check_model_fallback meta lang warn) in
  (∀ warn resolved,
     resolve (model component_meta) language warn = inr resolved →
     outcome (cache_key component_meta language)
     = inr (cls_name +:+ "-" +:+ resolved)) ∧
  (∀ warn warn' resolved resolved',
     resolve (model component_meta) language warn = inr resolved →
     resolve (model component_meta') language' warn' = inr resolved' →
     (outcome (cache_key component_meta language)
      = outcome (cache_key component_meta' language')
      ↔ resolved = resolved')) ∧
  trace (cache_key component_meta language) = [] ∧
  (∀ warn e,
     resolve (model component_meta) language warn = inl e →
     outcome (cache_key component_meta language) = inl e).
Proof.
  intros resolve. subst resolve. cbv beta. split_and!.
  - intros warn resolved H. rewrite check_model_fallback_warn_outcome in H.
    by rewrite cache_key_outcome, H.
  - intros warn warn' resolved resolved' H H'.
    rewrite check_model_fallback_warn_outcome in H, H'.
    rewrite !cache_key_outcome, H, H'. split.
    + intros [= Heq]. apply string_app_inj_r in Heq. by injection Heq.
    + by intros ->.
  - unfold cache_key, bind.
    pose proof (check_model_fallback_silent (model component_meta) language) as Hs.
    destruct (_check_model_fallback _ _ _) as [t [e|resolved]]; simpl in *; subst; done.
  - intros warn e H. rewrite check_model_fallback_warn_outcome in H.
    by rewrite cache_key_outcome, H.
Qed.

(** ** Validation of the loaded handle *)

Lemma null_provider_message_not_stub lang :
  null_provider_message ≠ stub_provider_message lang.
Proof. unfold null_provider_message, stub_provider_message. simpl. discriminate. Qed.

(** C6: [ensure_proper_language_model] raises the error that says that
    loading returned [None] exactly when the handle is [None]; it raises
    the error that says that the model of the handle's language could not
    be loaded exactly when there is a handle whose [path] is [None]; in
    every other case it returns, and [load] then builds the component
    around the handle it was given. *)
Theorem ensure_proper_language_model_spec (nlp : option Language) :
  (ensure_proper_language_model nlp = raise (Exception null_provider_message)
   ↔ nlp = None) ∧
  ((∃ lang, ensure_proper_language_model nlp
            = raise (Exception (stub_provider_message lang)))
   ↔ ∃ l, nlp = Some l ∧ path l = None) ∧
  (∀ l, nlp = Some l → path l = None →
     ensure_proper_language_model nlp
     = raise (Exception (stub_provider_message (lang l)))) ∧
  (ensure_proper_language_model nlp = ret tt
   ↔ ∃ l, nlp = Some l ∧ is_Some (path l)) ∧
  (∀ meta language model_name,
     outcome (_check_model_fallback (model meta) language true) = inr model_name →
     spacy_load model_name = Loaded nlp →
     ensure_proper_language_model nlp = ret tt →
     outcome (load meta language None) = inr (cls meta nlp)).
Proof.
  unfold ensure_proper_language_model. split_and!.
  - destruct nlp as [l|]; [destruct (path l)|]; split; by intros H.
  - destruct nlp as [l|]; [destruct (path l) eqn:Hp|]; split.
    + by intros [? ?].
    + intros (l' & [= <-] & ?). congruence.
    + eauto.
    + eauto.
    + by intros [lang' ?].
    + by intros (l & ? & _).
  - by intros l -> ->.
  - destruct nlp as [l|]; [destruct (path l) eqn:Hp|]; split.
    + eauto.
    + done.
    + done.
    + intros (l' & [= <-] & [? ?]). congruence.
    + done.
    + by intros (l & ? & _).
  - intros meta language model_name Hres Hload Hok.
    unfold load, bind, load_model, bind. simpl.
    destruct (_check_model_fallback _ _ _) as [t [e|name]]; simpl in Hres; [done|].
    injection Hres as ->. rewrite Hload. simpl.
    unfold ensure_proper_language_model. by rewrite Hok.
Qed.

(** ** Loading with a cached component *)

(** C10: given a cached component, [load] hands it back as it is: it
    raises nothing and makes no external call (no fallback warning, no
    [spacy.load]), whatever the metadata and the language are, also when
    resolving them would raise. *)
Theorem load_cached_component
    (meta : Config) (language : string) (cached_component : SpacyNLP) :
  outcome (load meta language (Some cached_component)) = inr cached_component ∧
  trace (load meta language (Some cached_component)) = [].
Proof. done. Qed.

(** ** Dicts, sorting and zipping *)

Global Instance key_le_total {V} : Total (@key_le V).
Proof. intros a b. unfold key_le. lia. Qed.

Global Instance key_le_trans {V} : Transitive (@key_le V).
Proof. intros a b c. unfold key_le. lia. Qed.

Lemma foldl_insert_lookup_notin {V} (pairs : list (Z * V)) (d : gmap Z V) k :
  k ∉ pairs.*1 → foldl (λ d kv, <[kv.1 := kv.2]> d) d pairs !! k = d !! k.
Proof.
  revert d. induction pairs as [|[k' v'] pairs IH]; intros d Hk; [done|].
  simpl in *. apply not_elem_of_cons in Hk as [Hne Hk].
  rewrite IH by done. by rewrite lookup_insert_ne.
Qed.

Lemma foldl_insert_lookup_in {V} (pairs : list (Z * V)) (d : gmap Z V) k v :
  NoDup pairs.*1 → (k, v) ∈ pairs →
  foldl (λ d kv, <[kv.1 := kv.2]> d) d pairs !! k = Some v.
Proof.
  revert d. induction pairs as [|[k' v'] pairs IH]; intros d Hnd Hin.
  - by apply elem_of_nil in Hin.
  - simpl in *. apply NoDup_cons in Hnd as [Hk' Hnd].
    apply elem_of_cons in Hin as [[= -> ->]|Hin].
    + rewrite foldl_insert_lookup_notin by done. apply lookup_insert_eq.
    + by apply IH.
Qed.

Lemma dict_lookup_Some {V} (pairs : list (Z * V)) k v :
  NoDup pairs.*1 → dict pairs !! k = Some v ↔ (k, v) ∈ pairs.
Proof.
  intros Hnd. unfold dict. split.
  - intros Hl. destruct (decide (k ∈ pairs.*1)) as [Hin|Hnin].
    + apply list_elem_of_fmap in Hin as ([k' v'] & -> & Hin). simpl in *.
      rewrite (foldl_insert_lookup_in pairs ∅ k' v') in Hl by done.
      by injection Hl as ->.
    + by rewrite foldl_insert_lookup_notin in Hl.
  - by apply foldl_insert_lookup_in.
Qed.

Lemma dict_lookup_is_Some {V} (pairs : list (Z * V)) k :
  NoDup pairs.*1 → is_Some (dict pairs !! k) ↔ k ∈ pairs.*1.
Proof.
  intros Hnd. split.
  - intros [v Hv]. apply dict_lookup_Some in Hv; [|done].
    apply list_elem_of_fmap. by exists (k, v).
  - intros ([k' v] & -> & Hin)%list_elem_of_fmap. exists v.
    by apply dict_lookup_Some.
Qed.

Lemma fst_prod_map_id {A B} (f : A → B) (l : list (Z * A)) :
  (prod_map id f <$> l).*1 = l.*1.
Proof. rewrite <-list_fmap_compose. by apply list_fmap_ext; intros ? [??]. Qed.

Lemma StronglySorted_le_NoDup_lt (l : list Z) :
  StronglySorted Z.le l → NoDup l → StronglySorted Z.lt l.
Proof.
  induction 1 as [|x l Hs IH Hall]; intros Hnd; constructor.
  - apply IH. by apply NoDup_cons in Hnd as [_ ?].
  - apply NoDup_cons in Hnd as [Hx _].
    rewrite Forall_forall in Hall |- *. intros y Hy.
    specialize (Hall y Hy). assert (x ≠ y) by (by intros ->). lia.
Qed.

Lemma sorted_Permutation {V} (items : list (Z * V)) : sorted items ≡ₚ items.
Proof. apply merge_sort_Permutation. Qed.

Lemma sorted_keys_ascending {V} (items : list (Z * V)) :
  NoDup items.*1 → Sorted Z.lt (sorted items).*1.
Proof.
  intros Hnd. apply StronglySorted_Sorted, StronglySorted_le_NoDup_lt.
  - apply (StronglySorted_fmap fst key_le); [done|].
    apply StronglySorted_merge_sort; apply _.
  - by rewrite sorted_Permutation.
Qed.

Lemma zip_positions_keys {A} (samples : list (Z * A)) (ds : list Doc) :
  length samples ≤ length ds → (zip_positions samples ds).*1 = samples.*1.
Proof.
  revert ds. induction samples as [|[p x] samples IH]; intros [|d ds] Hlen;
    simpl in *; try done; [lia|].
  f_equal. apply IH. lia.
Qed.

Lemma zip_positions_lookup {A} (samples : list (Z * A)) (ds : list Doc) i p x d :
  samples !! i = Some (p, x) → ds !! i = Some d →
  (p, d) ∈ zip_positions samples ds.
Proof.
  intros Hs Hd. apply list_elem_of_lookup. exists i.
  apply lookup_zip_with_Some. by exists (p, x), d.
Qed.

(** ** The partition *)

Lemma filter_training_samples_by_content_keys (samples : list (Z * string)) :
  (filter_training_samples_by_content samples).1.*1
  ++ (filter_training_samples_by_content samples).2.*1 ≡ₚ samples.*1.
Proof.
  unfold filter_training_samples_by_content. simpl.
  induction samples as [|[p text] samples IH]; [done|].
  rewrite !filter_cons. simpl.
  destruct (decide (text ≠ EmptyString)) as [Hne|He];
    destruct (decide (text = EmptyString)) as [He'|Hne']; try done; simpl.
  - by rewrite IH.
  - by rewrite <-Permutation_middle, IH.
Qed.

(** ** The merge *)

Lemma merge_content_lists_elem
    (samples : list (Z * string)) (doc_lists : list (Z * Doc)) p v :
  NoDup samples.*1 → doc_lists.*1 ≡ₚ samples.*1 →
  (p, v) ∈ merge_content_lists samples doc_lists
  ↔ ∃ d, v = VDoc d ∧ (p, d) ∈ doc_lists.
Proof.
  intros Hnd Hperm. unfold merge_content_lists, dict_update.
  assert (NoDup doc_lists.*1) as Hnd' by (by rewrite Hperm).
  rewrite sorted_Permutation, elem_of_map_to_list, lookup_union_Some_raw.
  rewrite !dict_lookup_Some by (by rewrite fst_prod_map_id).
  split.
  - intros [Hin|[Hnone Hin]].
    + apply list_elem_of_fmap in Hin as ([p' d] & Heq & Hin).
      simplify_eq/=. by exists d.
    + exfalso. apply eq_None_not_Some in Hnone. apply Hnone.
      apply dict_lookup_is_Some; rewrite fst_prod_map_id; [done|].
      rewrite Hperm. apply list_elem_of_fmap in Hin as ([p' t] & Heq & Hin).
      simplify_eq/=. apply list_elem_of_fmap. by eexists (_, t).
  - intros (d & -> & Hin). left. apply list_elem_of_fmap. by exists (p, d).
Qed.

Lemma merge_content_lists_keys
    (samples : list (Z * string)) (doc_lists : list (Z * Doc)) :
  NoDup samples.*1 →
  Sorted Z.lt (merge_content_lists samples doc_lists).*1 ∧
  ((∀ p, p ∈ doc_lists.*1 → p ∈ samples.*1) →
   (merge_content_lists samples doc_lists).*1 ≡ₚ samples.*1).
Proof.
  intros Hnd. unfold merge_content_lists, dict_update. split.
  - apply sorted_keys_ascending, NoDup_fst_map_to_list.
  - intros Hsub. rewrite sorted_Permutation.
    apply NoDup_Permutation; [apply NoDup_fst_map_to_list|done|].
    intros p. rewrite list_elem_of_fmap. split.
    + intros ([p' v] & -> & Hin). simpl.
      apply elem_of_map_to_list, lookup_union_Some_raw in Hin as [Hin|[_ Hin]].
      * apply Hsub.
        destruct (decide (p' ∈ doc_lists.*1)) as [|Hnin]; [done|].
        unfold dict in Hin. rewrite foldl_insert_lookup_notin in Hin; [done|].
        by rewrite fst_prod_map_id.
      * apply dict_lookup_Some in Hin; [|by rewrite fst_prod_map_id].
        apply list_elem_of_fmap in Hin as ([p'' t] & Heq & Hin).
        simplify_eq/=. apply list_elem_of_fmap. by eexists (_, t).
    + intros Hin.
      assert (is_Some (dict (prod_map id VText <$> samples) !! p)) as [t Ht].
      { apply dict_lookup_is_Some; by rewrite fst_prod_map_id. }
      destruct (dict (prod_map id VDoc <$> doc_lists) !! p) as [d|] eqn:Hd.
      * exists (p, d). split; [done|].
        apply elem_of_map_to_list, lookup_union_Some_raw. by left.
      * exists (p, t). split; [done|].
        apply elem_of_map_to_list, lookup_union_Some_raw. by right.
Qed.

(** ** The batch pipeline *)

(** With a provider at hand the pipeline raises nothing: it calls
    [nlp.pipe] once, on the texts of the content bearing samples, and
    merges what the two paths give. *)
Lemma attribute_document_list_unfold
    (config : Config) (l : Language) (samples : list (Z * string)) :
  let docs_to_pipe := (filter_training_samples_by_content samples).1 in
  let empty_docs := (filter_training_samples_by_content samples).2 in
  attribute_document_list (cls config (Some l)) samples
  = ([EvPipe (docs_to_pipe.*2) 50],
     inr (merge_content_lists samples
            (zip_positions docs_to_pipe (pipe l (docs_to_pipe.*2) 50)
             ++ zip_positions empty_docs ((λ _, Doc_ (vocab l)) <$> empty_docs)))).
Proof.
  unfold attribute_document_list, filter_training_samples_by_content,
    process_content_bearing_samples, process_non_content_bearing_samples.
  simpl.
  by destruct (filter (λ s : Z * string, s.2 = EmptyString) samples).
Qed.

(** What the merge of the two paths holds, for samples with pairwise
    different positions and a provider that hands back one document per
    text. *)
Lemma merged_documents (l : Language) (samples : list (Z * string)) :
  NoDup samples.*1 →
  (∀ texts batch_size, length (pipe l texts batch_size) = length texts) →
  let docs_to_pipe := (filter_training_samples_by_content samples).1 in
  let empty_docs := (filter_training_samples_by_content samples).2 in
  let out :=
    merge_content_lists samples
      (zip_positions docs_to_pipe (pipe l (docs_to_pipe.*2) 50)
       ++ zip_positions empty_docs ((λ _, Doc_ (vocab l)) <$> empty_docs)) in
  Sorted Z.lt out.*1 ∧
  out.*1 ≡ₚ samples.*1 ∧
  (∀ p v, (p, v) ∈ out → ∃ d, v = VDoc d) ∧
  (∀ p, (p, EmptyString) ∈ samples → (p, VDoc (Doc_ (vocab l))) ∈ out) ∧
  (∀ i p text,
     docs_to_pipe !! i = Some (p, text) →
     ∃ d, pipe l (docs_to_pipe.*2) 50 !! i = Some d ∧ (p, VDoc d) ∈ out) ∧
  ((∀ texts batch_size, pipe l texts batch_size = call l <$> texts) →
   ∀ p text, (p, text) ∈ samples → text ≠ EmptyString →
     (p, VDoc (call l text)) ∈ out).
Proof.
  intros Hnd Hlen. simpl.
  set (docs_to_pipe := filter (λ s, s.2 ≠ EmptyString) samples).
  set (empty_docs := filter (λ s, s.2 = EmptyString) samples).
  set (doc_lists := zip_positions docs_to_pipe _ ++ zip_positions empty_docs _).
  assert (doc_lists.*1 ≡ₚ samples.*1) as Hkeys.
  { unfold doc_lists. rewrite fmap_app, !zip_positions_keys.
    - apply (filter_training_samples_by_content_keys samples).
    - by rewrite length_fmap.
    - by rewrite Hlen, length_fmap. }
  assert (∀ i p text, docs_to_pipe !! i = Some (p, text) →
            ∃ d, pipe l (docs_to_pipe.*2) 50 !! i = Some d
                 ∧ (p, VDoc d) ∈ merge_content_lists samples doc_lists) as Hpipe.
  { intros i p text Hi.
    destruct (lookup_lt_is_Some_2 (pipe l (docs_to_pipe.*2) 50) i) as [d Hd].
    { rewrite Hlen, length_fmap. by eapply lookup_lt_Some. }
    exists d. split; [done|]. apply merge_content_lists_elem; [done..|].
    exists d. split; [done|]. apply elem_of_app. left.
    by eapply zip_positions_lookup. }
  split_and!.
  - by apply merge_content_lists_keys.
  - apply merge_content_lists_keys; [done|]. intros p. by rewrite Hkeys.
  - intros p v Hin. apply merge_content_lists_elem in Hin as (d & -> & _); eauto.
  - intros p Hin. apply merge_content_lists_elem; [done..|].
    eexists. split; [done|]. apply elem_of_app. right.
    assert ((p, EmptyString) ∈ empty_docs) as [i Hi]%list_elem_of_lookup
      by (by apply list_elem_of_filter).
    eapply zip_positions_lookup; [done|].
    by rewrite list_lookup_fmap, Hi.
  - done.
  - intros Hcall p text Hin Hne.
    assert ((p, text) ∈ docs_to_pipe) as [i Hi]%list_elem_of_lookup
      by (by apply list_elem_of_filter).
    destruct (Hpipe i p text Hi) as (d & Hd & Hout).
    rewrite Hcall, !list_lookup_fmap, Hi in Hd. by injection Hd as <-.
Qed.

(** C1: for samples with pairwise different positions and a provider that
    hands back one document per text, the pipeline returns pairs whose
    positions are the positions of the input in ascending order; every
    entry is a document; the sample of an empty text has the empty
    document [Doc(vocab)]; the [i]-th content bearing sample has the
    [i]-th document of the batch call; so, when the batch call does to
    each text what the single call does, a non-empty text has the
    document of the single call on it. *)
Theorem attribute_document_list_order
    (config : Config) (l : Language) (samples : list (Z * string)) :
  NoDup samples.*1 →
  (∀ texts batch_size, length (pipe l texts batch_size) = length texts) →
  ∃ out,
    outcome (attribute_document_list (cls config (Some l)) samples) = inr out ∧
    Sorted Z.lt out.*1 ∧
    out.*1 ≡ₚ samples.*1 ∧
    (∀ p v, (p, v) ∈ out → ∃ d, v = VDoc d) ∧
    (∀ p, (p, EmptyString) ∈ samples → (p, VDoc (Doc_ (vocab l))) ∈ out) ∧
    (∀ i p text,
       (filter_training_samples_by_content samples).1 !! i = Some (p, text) →
       ∃ d, pipe l ((filter_training_samples_by_content samples).1.*2) 50 !! i
            = Some d ∧ (p, VDoc d) ∈ out) ∧
    ((∀ texts batch_size, pipe l texts batch_size = call l <$> texts) →
     ∀ p text, (p, text) ∈ samples → text ≠ EmptyString →
       (p, VDoc (call l text)) ∈ out).
Proof.
  intros Hnd Hlen. eexists. rewrite attribute_document_list_unfold.
  split; [done|]. by apply merged_documents.
Qed.

(** C2, as the code has it: when every text is empty, also when there is
    no sample at all, [nlp.pipe] is called exactly once, on the empty list
    of texts, so that no text reaches the provider; and for no sample at
    all the pipeline returns the empty list. *)
Theorem attribute_document_list_all_empty
    (config : Config) (l : Language) (samples : list (Z * string)) :
  (∀ p text, (p, text) ∈ samples → text = EmptyString) →
  trace (attribute_document_list (cls config (Some l)) samples) = [EvPipe [] 50] ∧
  pipe_calls (trace (attribute_document_list (cls config (Some l)) samples)) = 1 ∧
  outcome (attribute_document_list (cls config (Some l)) []) = inr [].
Proof.
  intros Hall.
  assert (filter (λ s : Z * string, s.2 ≠ EmptyString) samples = []) as Hnil.
  { induction samples as [|[p text] samples IH]; [done|].
    rewrite filter_cons. simpl. rewrite (Hall p text) by left.
    rewrite decide_False by (intros Hne; by apply Hne).
    apply IH. intros p' text' Hin. apply (Hall p' text'). by right. }
  rewrite !attribute_document_list_unfold. unfold trace, outcome. simpl.
  rewrite Hnil. done.
Qed.

(** C7: with a component that is not case sensitive, the examples with
    the texts Hello, the empty text and World give the samples (0, hello),
    (1, empty) and (2, world); the batch call receives hello and world, in
    this order; the output has the positions 0, 1, 2 in this order, with
    the empty document [Doc(vocab)] at position 1 and, for a provider that
    answers with two documents, these two at positions 0 and 2. *)
Theorem scenario_hello_empty_world (model_name : option string) (l : Language) :
  let self := cls {| model := model_name; case_sensitive := false |} (Some l) in
  let training_examples :=
    [text_message "Hello"; text_message EmptyString; text_message "World"] in
  let samples := indexed_training_samples self training_examples "text" in
  samples = [(0%Z, "hello"); (1%Z, EmptyString); (2%Z, "world")] ∧
  trace (attribute_document_list self samples) = [EvPipe ["hello"; "world"] 50] ∧
  ∃ out,
    outcome (attribute_document_list self samples) = inr out ∧
    out.*1 = [0%Z; 1%Z; 2%Z] ∧
    out !! 1 = Some (1%Z, VDoc (Doc_ (vocab l))) ∧
    ∀ d0 d2, pipe l ["hello"; "world"] 50 = [d0; d2] →
      out = [(0%Z, VDoc d0); (1%Z, VDoc (Doc_ (vocab l))); (2%Z, VDoc d2)].
Proof.
  intros self training_examples samples.
  assert (samples = [(0%Z, "hello"); (1%Z, EmptyString); (2%Z, "world")]) as ->
    by (vm_compute; reflexivity).
  split; [done|]. unfold self. rewrite attribute_document_list_unfold.
  split; [done|]. eexists. split; [done|].
  change (filter_training_samples_by_content
            [(0%Z, "hello"); (1%Z, EmptyString); (2%Z, "world")]).1
    with [(0%Z, "hello"); (2%Z, "world")].
  change (filter_training_samples_by_content
            [(0%Z, "hello"); (1%Z, EmptyString); (2%Z, "world")]).2
    with [(1%Z, EmptyString)].
  change ([(0%Z, "hello"); (2%Z, "world")].*2) with ["hello"; "world"].
  destruct (pipe l ["hello"; "world"] 50) as [|d0 [|d2 ds]];
    (split_and!; [by vm_compute|by vm_compute|]); intros d0' d2' [= ]; subst;
    by vm_compute.
Qed.

(** ** Training *)

Lemma outcome_bind_inr {A B} (m : M A) (k : A → M B) a :
  outcome m = inr a → outcome (bind m k) = outcome (k a).
Proof.
  destruct m as [t [e|a']]; unfold outcome, bind; simpl; intros [= ->].
  by destruct (k a).
Qed.

Lemma enumerate_keys {A} (xs : list A) :
  (enumerate xs).*1 = Z.of_nat <$> seq 0 (length xs).
Proof. unfold enumerate. rewrite fmap_imap. apply (imap_seq_0 xs Z.of_nat). Qed.

Lemma enumerate_lookup {A} (xs : list A) i :
  enumerate xs !! i = (λ x, (Z.of_nat i, x)) <$> xs !! i.
Proof. unfold enumerate. by rewrite list_lookup_imap. Qed.

Lemma Sorted_lt_seq j n : Sorted Z.lt (Z.of_nat <$> seq j n).
Proof.
  revert j. induction n as [|n IH]; intros j; simpl; constructor; [apply IH|].
  destruct n; constructor. lia.
Qed.

Lemma NoDup_keys_unique {V} (items : list (Z * V)) k v1 v2 :
  NoDup items.*1 → (k, v1) ∈ items → (k, v2) ∈ items → v1 = v2.
Proof.
  induction items as [|[k' v'] items IH]; intros Hnd H1 H2.
  - by apply elem_of_nil in H1.
  - simpl in Hnd. apply NoDup_cons in Hnd as [Hk' Hnd].
    apply elem_of_cons in H1 as [H1|H1];
      apply elem_of_cons in H2 as [H2|H2]; simplify_eq; try done.
    + destruct Hk'. apply list_elem_of_fmap. by eexists (_, v2).
    + destruct Hk'. apply list_elem_of_fmap. by eexists (_, v1).
    + by apply IH.
Qed.

(** One round of the loop of [docs_for_training_data] yields one entry
    per example, in the order of the examples: the empty document for an
    empty text, and for any other text the document that the batch call
    gave for it. *)
Lemma docs_for_attribute_spec
    (config : Config) (l : Language) (training_examples : list Message)
    (attribute : string) :
  (∀ texts batch_size, length (pipe l texts batch_size) = length texts) →
  let self := cls config (Some l) in
  let samples := indexed_training_samples self training_examples attribute in
  let docs_to_pipe := (filter_training_samples_by_content samples).1 in
  ∃ ds,
    outcome (docs_for_attribute self training_examples attribute) = inr ds ∧
    length ds = length training_examples ∧
    ∀ idx example, training_examples !! idx = Some example →
      ∃ d, ds !! idx = Some (VDoc d) ∧
        (get_text self example attribute = EmptyString → d = Doc_ (vocab l)) ∧
        (get_text self example attribute ≠ EmptyString →
         ∃ i, docs_to_pipe.*2 !! i = Some (get_text self example attribute) ∧
              pipe l (docs_to_pipe.*2) 50 !! i = Some d).
Proof.
  intros Hlen self samples docs_to_pipe. unfold docs_for_attribute.
  fold samples. subst self. rewrite attribute_document_list_unfold. simpl.
  eexists. split; [done|].
  assert (samples.*1 = Z.of_nat <$> seq 0 (length training_examples)) as Hkeys.
  { unfold samples, indexed_training_samples.
    by rewrite enumerate_keys, length_fmap. }
  assert (NoDup samples.*1) as Hnd.
  { rewrite Hkeys. apply NoDup_fmap; [apply _|apply NoDup_seq]. }
  destruct (merged_documents l samples Hnd Hlen)
    as (Hsorted & Hperm & Hdocs & Hempty & Hpipe & _).
  fold docs_to_pipe in Hpipe.
  set (out := merge_content_lists samples _) in *.
  assert (out.*1 = Z.of_nat <$> seq 0 (length training_examples)) as Hout.
  { apply (Sorted_unique_strong Z.lt); [lia|done| |by rewrite Hperm, Hkeys].
    apply Sorted_lt_seq. }
  split.
  { by rewrite length_fmap, <-(length_fmap fst), Hout, length_fmap, length_seq. }
  intros idx example Hidx.
  assert (samples !! idx = Some (Z.of_nat idx, get_text (cls config (Some l)) example attribute))
    as Hsample.
  { unfold samples, indexed_training_samples.
    by rewrite enumerate_lookup, list_lookup_fmap, Hidx. }
  assert (∃ v, out !! idx = Some (Z.of_nat idx, v)) as [v Hv].
  { assert (out.*1 !! idx = Some (Z.of_nat idx)) as Hk.
    { rewrite Hout, list_lookup_fmap, lookup_seq_lt; [done|].
      by eapply lookup_lt_Some. }
    rewrite list_lookup_fmap in Hk.
    destruct (out !! idx) as [[k v]|]; simplify_eq/=. by exists v. }
  assert ((Z.of_nat idx, v) ∈ out) as Hin by (by eapply list_elem_of_lookup_2).
  destruct (Hdocs _ _ Hin) as [d ->]. exists d.
  assert (NoDup out.*1) as Hndout by (by rewrite Hperm).
  split_and!.
  - by rewrite list_lookup_fmap, Hv.
  - intros Hempty'. rewrite Hempty' in Hsample.
    apply list_elem_of_lookup_2, Hempty in Hsample.
    by pose proof (NoDup_keys_unique _ _ _ _ Hndout Hin Hsample) as [= ->].
  - intros Hne.
    assert ((Z.of_nat idx, get_text (cls config (Some l)) example attribute) ∈ docs_to_pipe)
      as [i Hi]%list_elem_of_lookup.
    { apply list_elem_of_filter. split; [done|]. by eapply list_elem_of_lookup_2. }
    destruct (Hpipe _ _ _ Hi) as (d' & Hd' & Hin').
    pose proof (NoDup_keys_unique _ _ _ _ Hndout Hin Hin') as [= ->].
    exists i. split; [|done]. by rewrite list_lookup_fmap, Hi.
Qed.

Lemma docs_for_attributes_spec
    (config : Config) (l : Language) (training_examples : list Message)
    (attributes : list string) (attribute_docs : gmap string (list value)) :
  let self := cls config (Some l) in
  ∃ m,
    outcome (docs_for_attributes self training_examples attributes attribute_docs)
    = inr m ∧
    (∀ a, a ∈ attributes →
       ∃ ds, outcome (docs_for_attribute self training_examples a) = inr ds
             ∧ m !! a = Some ds) ∧
    (∀ a, a ∉ attributes → m !! a = attribute_docs !! a).
Proof.
  intros self. subst self. revert attribute_docs.
  induction attributes as [|b attributes IH]; intros attribute_docs; simpl.
  - exists attribute_docs. split_and!; [done| |done].
    intros a Ha. by apply elem_of_nil in Ha.
  - assert (∃ ds, outcome (docs_for_attribute (cls config (Some l))
                             training_examples b) = inr ds) as [ds Hds].
    { unfold docs_for_attribute. rewrite attribute_document_list_unfold. eauto. }
    rewrite (outcome_bind_inr _ _ ds Hds).
    destruct (IH (<[b := ds]> attribute_docs)) as (m & Hm & Hin & Hnin).
    exists m. split_and!; [done| |].
    + intros a Ha. destruct (decide (a ∈ attributes)) as [|Hna]; [by apply Hin|].
      apply elem_of_cons in Ha as [->|]; [|done].
      exists ds. split; [done|]. rewrite Hnin by done. apply lookup_insert_eq.
    + intros a Ha. apply not_elem_of_cons in Ha as [Hne Ha].
      rewrite Hnin by done. by apply lookup_insert_ne.
Qed.

Lemma attach_doc_data attribute d example :
  data (attach_doc attribute d example) = data example.
Proof. unfold attach_doc. by case_bool_decide. Qed.

Lemma attach_doc_same attribute d example :
  docs (attach_doc attribute d example) !! SPACY_DOCS attribute
  = if bool_decide (len d ≠ 0) then Some d
    else docs example !! SPACY_DOCS attribute.
Proof. unfold attach_doc. case_bool_decide; [apply lookup_insert_eq|done]. Qed.

Lemma attach_doc_other attribute d example slot :
  SPACY_DOCS attribute ≠ slot →
  docs (attach_doc attribute d example) !! slot = docs example !! slot.
Proof.
  intros Hne. unfold attach_doc. case_bool_decide; [|done].
  by apply lookup_insert_ne.
Qed.

Lemma train_examples_spec
    (attribute_docs : gmap string (list value)) (attribute : string)
    (ds : list value) (idx : nat) (training_examples : list Message) :
  attribute_docs !! attribute = Some ds →
  idx + length training_examples ≤ length ds →
  ∃ trained,
    train_examples attribute_docs attribute idx training_examples = ret trained ∧
    length trained = length training_examples ∧
    ∀ j example, training_examples !! j = Some example →
      ∃ d, ds !! (idx + j) = Some d ∧
           trained !! j = Some (attach_doc attribute d example).
Proof.
  intros Hds. revert idx.
  induction training_examples as [|e rest IH]; intros idx Hlen; simpl in *.
  - exists []. split_and!; [done..|]. intros j example Hj. by destruct j.
  - destruct (lookup_lt_is_Some_2 ds idx) as [d Hd]; [lia|].
    destruct (IH (S idx)) as (trained & Hrun & Hlen' & Hall); [lia|].
    exists (attach_doc attribute d e :: trained).
    unfold train_example. rewrite Hds. simpl. rewrite Hd. simpl.
    rewrite Hrun. simpl. split_and!; [done|by rewrite Hlen'|].
    intros [|j] example Hj; simpl in *.
    + injection Hj as <-. exists d. by rewrite Nat.add_0_r.
    + destruct (Hall j example Hj) as (d' & Hd' & Hj').
      exists d'. by rewrite <-Nat.add_succ_comm.
Qed.

Lemma train_attributes_spec
    (attribute_docs : gmap string (list value)) (attributes : list string)
    (training_examples : list Message) :
  (∀ a b, a ∈ attributes → b ∈ attributes → SPACY_DOCS a = SPACY_DOCS b → a = b) →
  (∀ a, a ∈ attributes →
     ∃ ds, attribute_docs !! a = Some ds ∧ length ds = length training_examples) →
  ∃ trained,
    train_attributes attribute_docs attributes training_examples = ret trained ∧
    length trained = length training_examples ∧
    ∀ idx example, training_examples !! idx = Some example →
      ∃ example', trained !! idx = Some example' ∧
        data example' = data example ∧
        (∀ slot, (∀ a, a ∈ attributes → SPACY_DOCS a ≠ slot) →
           docs example' !! slot = docs example !! slot) ∧
        (∀ a ds d, a ∈ attributes → attribute_docs !! a = Some ds →
           ds !! idx = Some d →
           docs example' !! SPACY_DOCS a
           = if bool_decide (len d ≠ 0) then Some d
             else docs example !! SPACY_DOCS a).
Proof.
  revert training_examples.
  induction attributes as [|b attributes IH]; intros training_examples Hinj Hm;
    simpl.
  - exists training_examples. split_and!; [done..|].
    intros idx example Hidx. exists example. split_and!; [done..|].
    intros a ds d Ha. by apply elem_of_nil in Ha.
  - destruct (Hm b) as (dsb & Hb & Hlenb); [by left|].
    destruct (train_examples_spec attribute_docs b dsb 0 training_examples)
      as (cur & Hrun & Hlen & Hcur); [done|simpl; lia|].
    rewrite Hrun. simpl.
    destruct (IH cur) as (trained & Hrun' & Hlen' & Htrained).
    { intros a a' Ha Ha'. apply Hinj; by right. }
    { intros a Ha. rewrite Hlen. apply Hm. by right. }
    exists trained. rewrite Hrun'. split_and!; [done|congruence|].
    intros idx example Hidx.
    destruct (Hcur idx example Hidx) as (db & Hdb & Hcur'). simpl in Hdb.
    destruct (Htrained idx _ Hcur') as (example' & Hex' & Hdata & Hother & Hset).
    exists example'. split_and!; [done|by rewrite Hdata, attach_doc_data| |].
    + intros slot Hslot. rewrite Hother.
      * apply attach_doc_other, Hslot. by left.
      * intros a Ha. apply Hslot. by right.
    + intros a ds d Ha Hds Hd.
      destruct (decide (a ∈ attributes)) as [Hin|Hnin].
      * rewrite (Hset a ds d Hin Hds Hd). case_bool_decide as Hl; [done|].
        destruct (decide (b = a)) as [->|Hne].
        -- simplify_eq. rewrite attach_doc_same. by case_bool_decide.
        -- apply attach_doc_other. intros Heq. apply Hne.
           apply Hinj; [by left|by right|done].
      * apply elem_of_cons in Ha as [->|]; [|done]. simplify_eq.
        rewrite Hother; [apply attach_doc_same|].
        intros a Ha Heq. apply Hnin.
        assert (a = b) as <-; [|done].
        apply Hinj; [by right|by left|done].
Qed.

(** C5, as the code has it: for a provider that hands back one document
    per text, and slot names that differ from attribute to attribute,
    [train] raises nothing and leaves as many examples as it was given;
    for every example and every dense featurizable attribute, a text that
    normalizes to the empty string leaves the attribute's slot as it was;
    a text that normalizes to a non-empty string has a document in the
    answer of the batch call, at the place of the text, and this document
    is in the attribute's slot exactly when it has tokens: without tokens
    it leaves the slot as it was. *)
Theorem train_attachment_by_tokens
    (config : Config) (l : Language) (training_examples : list Message) :
  (∀ a b, a ∈ DENSE_FEATURIZABLE_ATTRIBUTES → b ∈ DENSE_FEATURIZABLE_ATTRIBUTES →
     SPACY_DOCS a = SPACY_DOCS b → a = b) →
  (∀ texts batch_size, length (pipe l texts batch_size) = length texts) →
  let self := cls config (Some l) in
  ∃ trained,
    outcome (train self training_examples) = inr trained ∧
    length trained = length training_examples ∧
    ∀ idx example attribute,
      training_examples !! idx = Some example →
      attribute ∈ DENSE_FEATURIZABLE_ATTRIBUTES →
      ∃ example',
        trained !! idx = Some example' ∧
        (get_text self example attribute = EmptyString →
         docs example' !! SPACY_DOCS attribute
         = docs example !! SPACY_DOCS attribute) ∧
        (get_text self example attribute ≠ EmptyString →
         let texts :=
           (filter_training_samples_by_content
              (indexed_training_samples self training_examples attribute)).1.*2 in
         ∃ ds d i,
           outcome (docs_for_attribute self training_examples attribute) = inr ds ∧
           ds !! idx = Some (VDoc d) ∧
           texts !! i = Some (get_text self example attribute) ∧
           pipe l texts 50 !! i = Some d ∧
           (doc_tokens d ≠ [] →
            docs example' !! SPACY_DOCS attribute = Some (VDoc d)) ∧
           (doc_tokens d = [] →
            docs example' !! SPACY_DOCS attribute
            = docs example !! SPACY_DOCS attribute)).
Proof.
  intros Hinj Hlen self. subst self.
  destruct (docs_for_attributes_spec config l training_examples
              DENSE_FEATURIZABLE_ATTRIBUTES ∅) as (m & Hm & Hin & _).
  assert (∀ a, a ∈ DENSE_FEATURIZABLE_ATTRIBUTES →
            ∃ ds, m !! a = Some ds ∧ length ds = length training_examples) as Hlens.
  { intros a Ha. destruct (Hin a Ha) as (ds & Hds & Hma).
    destruct (docs_for_attribute_spec config l training_examples a Hlen)
      as (ds' & Hds' & Hlen' & _).
    exists ds. split; [done|]. congruence. }
  destruct (train_attributes_spec m DENSE_FEATURIZABLE_ATTRIBUTES
              training_examples Hinj Hlens) as (trained & Hrun & Hlen' & Htrained).
  exists trained. split_and!; [|done|].
  { unfold train. rewrite (outcome_bind_inr _ _ m Hm). by rewrite Hrun. }
  intros idx example attribute Hidx Ha.
  destruct (Htrained idx example Hidx) as (example' & Hex' & _ & _ & Hset).
  exists example'. split; [done|].
  destruct (Hin attribute Ha) as (ds & Hds & Hma).
  destruct (docs_for_attribute_spec config l training_examples attribute Hlen)
    as (ds' & Hds' & _ & Hall).
  assert (ds' = ds) as -> by congruence.
  destruct (Hall idx example Hidx) as (d & Hd & Hempty & Hcontent).
  rewrite (Hset attribute ds (VDoc d) Ha Hma Hd). split.
  - intros Ht. rewrite (Hempty Ht). by rewrite bool_decide_false by (simpl; lia).
  - intros Ht texts. destruct (Hcontent Ht) as (i & Hi & Hpipe).
    exists ds, d, i. split_and!; [done..| |].
    + intros Htokens. rewrite bool_decide_true; [done|]. simpl.
      by destruct (doc_tokens d).
    + intros Htokens. rewrite bool_decide_false; [done|]. simpl.
      rewrite Htokens. simpl. lia.
Qed.

(** ** Inference on one message *)

Lemma truthy_Some_true text : truthy (Some text) = true ↔ text ≠ EmptyString.
Proof. by destruct text. Qed.

Lemma doc_for_text_some (config : Config) (l : Language) (text : string) :
  let self := cls config (Some l) in
  doc_for_text self text
  = ([EvNlp (preprocess_text self (Some text))],
     inr (call l (preprocess_text self (Some text)))).
Proof. done. Qed.

Lemma process_attributes_spec
    (config : Config) (l : Language) (attributes : list string)
    (message : Message) :
  (∀ a b, a ∈ attributes → b ∈ attributes → SPACY_DOCS a = SPACY_DOCS b → a = b) →
  let self := cls config (Some l) in
  ∃ message',
    process_attributes self attributes message
    = ((λ a, EvNlp (preprocess_text self (Message_get message a)))
         <$> filter (λ a, truthy (Message_get message a)) attributes,
       inr message') ∧
    data message' = data message ∧
    (∀ slot,
       (∀ a, a ∈ attributes → truthy (Message_get message a) = true →
          SPACY_DOCS a ≠ slot) →
       docs message' !! slot = docs message !! slot) ∧
    (∀ a text,
       a ∈ attributes → Message_get message a = Some text → text ≠ EmptyString →
       docs message' !! SPACY_DOCS a
       = Some (VDoc (call l (preprocess_text self (Some text))))).
Proof.
  intros Hinj self. subst self. revert message Hinj.
  induction attributes as [|b attributes IH]; intros message Hinj.
  - exists message. split_and!; [done..|]. intros a text Ha. by apply elem_of_nil in Ha.
  - assert (∀ a a', a ∈ attributes → a' ∈ attributes →
              SPACY_DOCS a = SPACY_DOCS a' → a = a') as Hinj'.
    { intros a a' Ha Ha'. apply Hinj; by right. }
    cbn [process_attributes]. rewrite filter_cons.
    destruct (Message_get message b) as [text|] eqn:Hget;
      [destruct (truthy (Some text)) eqn:Htruthy|].
    + rewrite decide_True by done.
      set (doc := call l (preprocess_text (cls config (Some l)) (Some text))).
      set (message1 := Message_set message (SPACY_DOCS b) (VDoc doc)).
      destruct (IH message1 Hinj') as (message' & Hrun & Hdata & Hother & Hset).
      exists message'. rewrite doc_for_text_some. unfold bind.
      fold doc message1. rewrite Hrun. split_and!.
      * by rewrite fmap_cons, Hget.
      * done.
      * intros slot Hslot. rewrite Hother.
        -- simpl. apply lookup_insert_ne, Hslot; [by left|by rewrite Hget].
        -- intros a Ha. apply Hslot. by right.
      * intros a text' Ha Hget' Hne.
        destruct (decide (a ∈ attributes)) as [Hin|Hnin]; [by apply Hset|].
        apply elem_of_cons in Ha as [->|]; [|done].
        rewrite Hother.
        -- simpl. rewrite lookup_insert_eq. unfold doc. congruence.
        -- intros a Ha _ Heq. apply Hnin.
           assert (a = b) as <-; [|done].
           apply Hinj; [by right|by left|done].
    + rewrite decide_False by (intros H; exact H).
      destruct (IH message Hinj') as (message' & Hrun & Hdata & Hother & Hset).
      exists message'. split_and!; [done..| |].
      * intros slot Hslot. apply Hother. intros a Ha. apply Hslot. by right.
      * intros a text' Ha Hget' Hne.
        apply elem_of_cons in Ha as [->|Ha]; [|by eapply Hset].
        apply truthy_Some_true in Hne. congruence.
    + rewrite decide_False by (intros H; exact H).
      destruct (IH message Hinj') as (message' & Hrun & Hdata & Hother & Hset).
      exists message'. split_and!; [done..| |].
      * intros slot Hslot. apply Hother. intros a Ha. apply Hslot. by right.
      * intros a text' Ha Hget' Hne.
        apply elem_of_cons in Ha as [->|Ha]; [|by eapply Hset]. congruence.
Qed.

(** C8, as the code has it: [process] raises nothing and leaves the
    texts of the message alone; it calls [nlp] once for every dense
    featurizable attribute whose text is there and is not empty, in the
    order of the attributes, on the normalized text, and makes no other
    external call; such an attribute gets the document of its call in its
    slot; an attribute whose text is absent or empty brings no call and
    keeps its slot as it was. *)
Theorem process_attachment
    (config : Config) (l : Language) (message : Message) :
  (∀ a b, a ∈ DENSE_FEATURIZABLE_ATTRIBUTES → b ∈ DENSE_FEATURIZABLE_ATTRIBUTES →
     SPACY_DOCS a = SPACY_DOCS b → a = b) →
  let self := cls config (Some l) in
  ∃ message',
    outcome (process self message) = inr message' ∧
    data message' = data message ∧
    trace (process self message)
    = (λ a, EvNlp (preprocess_text self (Message_get message a)))
        <$> filter (λ a, truthy (Message_get message a))
              DENSE_FEATURIZABLE_ATTRIBUTES ∧
    ∀ attribute, attribute ∈ DENSE_FEATURIZABLE_ATTRIBUTES →
      (∀ text, Message_get message attribute = Some text → text ≠ EmptyString →
         docs message' !! SPACY_DOCS attribute
         = Some (VDoc (call l (preprocess_text self (Some text))))) ∧
      (truthy (Message_get message attribute) = false →
         docs message' !! SPACY_DOCS attribute
         = docs message !! SPACY_DOCS attribute).
Proof.
  intros Hinj self.
  destruct (process_attributes_spec config l DENSE_FEATURIZABLE_ATTRIBUTES
              message Hinj) as (message' & Hrun & Hdata & Hother & Hset).
  exists message'. unfold process. fold self in Hrun, Hset. rewrite Hrun.
  split_and!; [done..|]. intros attribute Ha. split.
  - intros text. by apply Hset.
  - intros Hfalsy. apply Hother. intros a Ha' Htruthy Heq.
    assert (a = attribute) as -> by (by apply Hinj). congruence.
Qed.

(** ** More on model resolution *)

Lemma check_model_fallback_trace
    (spacy_model_name : option string) (language_name : string) (warn : bool) :
  trace (_check_model_fallback spacy_model_name language_name warn)
  = if warn && negb (truthy spacy_model_name)
    then match fallback_mapping !! language_name with
         | Some fallback =>
           [EvDeprecationWarning (fallback_warning_message fallback)
              (DOCS_URL_COMPONENTS +:+ "#spacynlp")]
         | None => []
         end
    else [].
Proof.
  unfold _check_model_fallback.
  destruct spacy_model_name as [[|c s]|], warn; simpl;
    by destruct (fallback_mapping !! language_name).
Qed.

(** X3: [_check_model_fallback] gives the deprecation warning exactly
    when it was asked to warn, the model name is missing or empty and the
    language has a fallback; the message of the warning is the text of
    the source around the name of the fallback model, which it carries
    between quotes, and its link is the components page at spacynlp;
    there is no other external call, and none at all when it raises. *)
Theorem check_model_fallback_warning
    (spacy_model_name : option string) (language_name : string) (warn : bool) :
  trace (_check_model_fallback spacy_model_name language_name warn)
  = if warn && negb (truthy spacy_model_name)
    then match fallback_mapping !! language_name with
         | Some fallback =>
           [EvDeprecationWarning
              ("SpaCy model is not properly configured! Please add a `model` property to `SpacyNLP`. "
               +:+ "Will use '" +:+ fallback +:+ "' as a fallback spaCy model. "
               +:+ "This fallback will be deprecated in Rasa 3.0")
              (DOCS_URL_COMPONENTS +:+ "#spacynlp")]
         | None => []
         end
    else [].
Proof. apply check_model_fallback_trace. Qed.

Lemma fallback_mapping_nonempty language_name fallback :
  fallback_mapping !! language_name = Some fallback → fallback ≠ EmptyString.
Proof.
  intros Hlookup.
  apply (map_Forall_lookup_1 (λ _ v, v ≠ EmptyString) fallback_mapping
           language_name fallback); [|done].
  apply (bool_decide_unpack _). by vm_compute.
Qed.

Lemma check_model_fallback_nonempty spacy_model_name language_name warn resolved :
  outcome (_check_model_fallback spacy_model_name language_name warn) = inr resolved →
  resolved ≠ EmptyString.
Proof.
  destruct (truthy spacy_model_name) eqn:Ht.
  - destruct spacy_model_name as [[|c s]|]; try done.
    rewrite check_model_fallback_explicit. by intros [= <-].
  - rewrite check_model_fallback_missing by done.
    destruct (fallback_mapping !! language_name) eqn:Hf; [|done].
    intros [= <-]. by eapply fallback_mapping_nonempty.
Qed.

(** X4: a resolved model name is never empty, so resolving again with
    the resolved name as the given one hands it back for every language,
    without a warning. *)
Theorem check_model_fallback_stable
    (spacy_model_name : option string) (language_name : string) (warn : bool)
    (resolved : string) :
  outcome (_check_model_fallback spacy_model_name language_name warn) = inr resolved →
  resolved ≠ EmptyString ∧
  ∀ language_name' warn',
    _check_model_fallback (Some resolved) language_name' warn' = ret resolved.
Proof.
  intros Hres. apply check_model_fallback_nonempty in Hres.
  split; [done|]. intros language_name' warn'. by destruct resolved.
Qed.

(** X5: a configuration without model name and a configuration that
    names the fallback of the first one's language have the same cache
    key, whatever the language of the second is. *)
Theorem cache_key_fallback_explicit
    (component_meta component_meta' : Config) (language language' fallback : string) :
  truthy (model component_meta) = false →
  fallback_mapping !! language = Some fallback →
  model component_meta' = Some fallback →
  cache_key component_meta language = cache_key component_meta' language'.
Proof.
  intros Hfalsy Hfallback Hmodel.
  pose proof (fallback_mapping_nonempty _ _ Hfallback) as Hne.
  unfold cache_key, _check_model_fallback. rewrite Hmodel, Hfallback.
  destruct fallback; [done|]. by destruct (model component_meta) as [[|??]|].
Qed.

(** ** Loading without a cached component, and creating *)

Lemma load_uncached_unfold (meta : Config) (language : string) :
  load meta language None
  = match _check_model_fallback (model meta) language true with
    | (t, inl e) => (t, inl e)
    | (t, inr model_name) =>
      (t ++ [EvSpacyLoad model_name],
       match spacy_load model_name with
       | OSError =>
         inl (InvalidModelError (model_not_available_message model_name))
       | Raises e => inl e
       | Loaded None => inl (Exception null_provider_message)
       | Loaded (Some l) =>
         match path l with
         | None => inl (Exception (stub_provider_message (lang l)))
         | Some _ => inr (cls meta (Some l))
         end
       end)
    end.
Proof.
  unfold load, load_model, ensure_proper_language_model, bind.
  destruct (_check_model_fallback _ _ _) as [t [e|model_name]]; [done|]. simpl.
  destruct (spacy_load model_name) as [|e|[l|]]; simpl; [done|done| |done].
  destruct (path l); simpl; by rewrite ?app_nil_r.
Qed.

Lemma load_uncached_inr (meta : Config) (language : string) (component : SpacyNLP) :
  outcome (load meta language None) = inr component →
  ∃ model_name l,
    outcome (_check_model_fallback (model meta) language true) = inr model_name ∧
    spacy_load model_name = Loaded (Some l) ∧
    is_Some (path l) ∧
    component = cls meta (Some l).
Proof.
  rewrite load_uncached_unfold.
  destruct (_check_model_fallback _ _ _) as [t [e|model_name]]; [done|].
  unfold outcome. simpl.
  destruct (spacy_load model_name) as [|e|[l|]] eqn:Hload; try done.
  destruct (path l) eqn:Hpath; [|done]. intros [= <-].
  exists model_name, l. by rewrite Hpath.
Qed.

(** X6: a component that [load] builds, when there is no cached one,
    carries the metadata it was given and a handle that [spacy.load]
    returned for the resolved model name and that has a path; this handle
    is what [provide_context] passes on under the key spacy_nlp. *)
Theorem load_uncached_usable
    (meta : Config) (language : string) (component : SpacyNLP) :
  outcome (load meta language None) = inr component →
  component_config component = meta ∧
  ∃ model_name l,
    outcome (_check_model_fallback (model meta) language true) = inr model_name ∧
    spacy_load model_name = Loaded (Some l) ∧
    is_Some (path l) ∧
    nlp component = Some l ∧
    provide_context component !! "spacy_nlp" = Some (Some l).
Proof.
  intros (model_name & l & Hres & Hload & Hpath & ->)%load_uncached_inr.
  split; [done|]. exists model_name, l. split_and!; [done..|].
  unfold provide_context. simpl. apply lookup_singleton_eq.
Qed.

(** X7: when [load] raises without a cached component, given the
    language of the model metadata, the error is the one of the
    resolution, or the one for a model on which [spacy.load] raised
    [OSError], or whatever else [spacy.load] raised, handed on as it is,
    or the one for a handle that is [None], or the one for a handle
    without path. *)
Theorem load_uncached_errors (meta : Config) (language : string) (e : exn) :
  outcome (load meta language None) = inl e →
  (e = InvalidModelError (no_fallback_message language) ∧
   truthy (model meta) = false ∧ fallback_mapping !! language = None) ∨
  ∃ model_name,
    outcome (_check_model_fallback (model meta) language true) = inr model_name ∧
    ((spacy_load model_name = OSError ∧
      e = InvalidModelError (model_not_available_message model_name)) ∨
     spacy_load model_name = Raises e ∨
     (spacy_load model_name = Loaded None ∧
      e = Exception null_provider_message) ∨
     (∃ l, spacy_load model_name = Loaded (Some l) ∧ path l = None ∧
           e = Exception (stub_provider_message (lang l)))).
Proof.
  rewrite load_uncached_unfold.
  destruct (_check_model_fallback (model meta) language true)
    as [t [e'|model_name]] eqn:Hres; unfold outcome; simpl.
  - intros [= <-]. left.
    assert (outcome (_check_model_fallback (model meta) language true) = inl e')
      as Hout by (by rewrite Hres).
    destruct (truthy (model meta)) eqn:Ht.
    + destruct (model meta) as [[|c s]|]; try done.
    + rewrite check_model_fallback_missing in Hout by done.
      destruct (fallback_mapping !! language); [done|]. by injection Hout as <-.
  - intros He. right. exists model_name. split; [done|].
    destruct (spacy_load model_name) as [|e'|[l|]].
    + left. by injection He as <-.
    + right; left. by injection He as <-.
    + right; right; right. exists l. destruct (path l); [done|].
      by injection He as <-.
    + right; right; left. by injection He as <-.
Qed.

(** The converse for the errors that [spacy.load] raises itself: an
    [OSError] becomes the [InvalidModelError] that names the model, any
    other exception leaves [load] as it is. *)
Lemma load_uncached_spacy_load_raises
    (meta : Config) (language model_name : string) :
  outcome (_check_model_fallback (model meta) language true) = inr model_name →
  (spacy_load model_name = OSError →
   outcome (load meta language None)
   = inl (InvalidModelError (model_not_available_message model_name))) ∧
  (∀ e, spacy_load model_name = Raises e →
        outcome (load meta language None) = inl e).
Proof.
  intros Hres. rewrite load_uncached_unfold.
  destruct (_check_model_fallback (model meta) language true)
    as [t [e'|name]]; unfold outcome in *; simpl in *; [done|].
  injection Hres as ->. split.
  - by intros ->.
  - by intros e ->.
Qed.



(** X9: [create] is the uncached [load] of the configuration with the
    defaults filled in: a component it builds carries that configuration
    and a handle with a path. *)
Theorem create_usable
    (custom : Config) (language : string) (component : SpacyNLP) :
  outcome (create custom language) = inr component →
  create custom language = load (override_defaults defaults custom) language None ∧
  component_config component = override_defaults defaults custom ∧
  ∃ l, nlp component = Some l ∧ is_Some (path l).
Proof.
  change (create custom language)
    with (load (override_defaults defaults custom) language None).
  intros (model_name & l & Hres & Hload & Hpath & ->)%load_uncached_inr.
  split_and!; [done..|]. by exists l.
Qed.

(** ** More on the partition, the batch call and the merge *)

Lemma filter_fmap_snd_text (samples : list (Z * string)) :
  (filter (λ s : Z * string, s.2 ≠ EmptyString) samples).*2
  = filter (λ text, text ≠ EmptyString) samples.*2.
Proof.
  induction samples as [|[p text] samples IH]; [done|].
  rewrite fmap_cons, !filter_cons. simpl.
  destruct (decide (text ≠ EmptyString)); [rewrite fmap_cons; f_equal|]; apply IH.
Qed.

Lemma filter_training_samples_by_content_Permutation (samples : list (Z * string)) :
  (filter_training_samples_by_content samples).1
  ++ (filter_training_samples_by_content samples).2 ≡ₚ samples.
Proof.
  unfold filter_training_samples_by_content. simpl.
  induction samples as [|[p text] samples IH]; [done|].
  rewrite !filter_cons. simpl.
  destruct (decide (text ≠ EmptyString)) as [Hne|He];
    destruct (decide (text = EmptyString)) as [He'|Hne']; try done; simpl.
  - by rewrite IH.
  - by rewrite <-Permutation_middle, IH.
Qed.

(** X10: [filter_training_samples_by_content] splits the samples in two
    without losing, inventing or reordering any: the content bearing ones
    are the samples with a non-empty text, the others the samples with
    the empty text, each in the order of the input, and together they are
    the input. *)
Theorem filter_training_samples_by_content_partition (samples : list (Z * string)) :
  let docs_to_pipe := (filter_training_samples_by_content samples).1 in
  let empty_docs := (filter_training_samples_by_content samples).2 in
  docs_to_pipe `sublist_of` samples ∧
  empty_docs `sublist_of` samples ∧
  (∀ s, s ∈ docs_to_pipe ↔ s ∈ samples ∧ s.2 ≠ EmptyString) ∧
  (∀ s, s ∈ empty_docs ↔ s ∈ samples ∧ s.2 = EmptyString) ∧
  docs_to_pipe ++ empty_docs ≡ₚ samples ∧
  length docs_to_pipe + length empty_docs = length samples.
Proof.
  simpl. split_and!.
  - apply sublist_filter.
  - apply sublist_filter.
  - intros s. rewrite list_elem_of_filter. split; by intros [? ?].
  - intros s. rewrite list_elem_of_filter. split; by intros [? ?].
  - apply filter_training_samples_by_content_Permutation.
  - rewrite <-length_app.
    by rewrite (filter_training_samples_by_content_Permutation samples).
Qed.

(** X11: with a provider at hand the pipeline makes exactly one external
    call, the batch call with batch size 50 on the non-empty texts in the
    order of the samples; the empty string is never among them. *)
Theorem attribute_document_list_pipe_texts
    (config : Config) (l : Language) (samples : list (Z * string)) :
  trace (attribute_document_list (cls config (Some l)) samples)
  = [EvPipe (filter (λ text, text ≠ EmptyString) samples.*2) 50] ∧
  EmptyString ∉ filter (λ text, text ≠ EmptyString) samples.*2.
Proof.
  rewrite attribute_document_list_unfold. unfold trace. simpl. split.
  - by rewrite filter_fmap_snd_text.
  - rewrite list_elem_of_filter. by intros [? _].
Qed.

Lemma dict_lookup_is_Some_gen {V} (pairs : list (Z * V)) k :
  is_Some (dict pairs !! k) ↔ k ∈ pairs.*1.
Proof.
  unfold dict. split.
  - intros Hsome. destruct (decide (k ∈ pairs.*1)) as [|Hnin]; [done|].
    rewrite foldl_insert_lookup_notin in Hsome by done.
    rewrite lookup_empty in Hsome. by destruct Hsome.
  - generalize (∅ : gmap Z V).
    induction pairs as [|[k' v'] pairs IH]; intros d Hin; simpl in *.
    + by apply elem_of_nil in Hin.
    + destruct (decide (k ∈ pairs.*1)) as [|Hnin]; [by apply IH|].
      apply elem_of_cons in Hin as [->|]; [|done].
      rewrite foldl_insert_lookup_notin by done.
      rewrite lookup_insert_eq. by eexists.
Qed.

Lemma dict_lookup_last {V} (l1 l2 : list (Z * V)) k v :
  k ∉ l2.*1 → dict (l1 ++ (k, v) :: l2) !! k = Some v.
Proof.
  intros Hnin. unfold dict. rewrite foldl_app. simpl.
  rewrite foldl_insert_lookup_notin by done. apply lookup_insert_eq.
Qed.

Lemma merge_content_lists_key_set
    (samples : list (Z * string)) (doc_lists : list (Z * Doc)) p :
  p ∈ (merge_content_lists samples doc_lists).*1
  ↔ p ∈ samples.*1 ∨ p ∈ doc_lists.*1.
Proof.
  unfold merge_content_lists, dict_update. rewrite sorted_Permutation.
  rewrite list_elem_of_fmap. split.
  - intros ([p' v] & -> & Hin). simpl.
    apply elem_of_map_to_list, lookup_union_Some_raw in Hin as [Hin|[_ Hin]];
      [right|left].
    + rewrite <-(fst_prod_map_id VDoc). apply dict_lookup_is_Some_gen. by eexists.
    + rewrite <-(fst_prod_map_id VText). apply dict_lookup_is_Some_gen. by eexists.
  - intros Hin.
    assert (is_Some ((dict (prod_map id VDoc <$> doc_lists)
                      ∪ dict (prod_map id VText <$> samples)) !! p)) as [v Hv].
    { apply lookup_union_is_Some. rewrite !dict_lookup_is_Some_gen.
      rewrite !fst_prod_map_id. destruct Hin; [by right|by left]. }
    exists (p, v). split; [done|]. by apply elem_of_map_to_list.
Qed.

Lemma merge_content_lists_doc
    (samples : list (Z * string)) (l1 l2 : list (Z * Doc)) p d :
  p ∉ l2.*1 →
  (p, VDoc d) ∈ merge_content_lists samples (l1 ++ (p, d) :: l2).
Proof.
  intros Hnin. unfold merge_content_lists, dict_update.
  rewrite sorted_Permutation. apply elem_of_map_to_list, lookup_union_Some_raw.
  left. rewrite fmap_app, fmap_cons. apply dict_lookup_last.
  by rewrite fst_prod_map_id.
Qed.

Lemma merge_content_lists_text
    (s1 s2 : list (Z * string)) (doc_lists : list (Z * Doc)) p text :
  p ∉ s2.*1 → p ∉ doc_lists.*1 →
  (p, VText text) ∈ merge_content_lists (s1 ++ (p, text) :: s2) doc_lists.
Proof.
  intros Hnin Hdoc. unfold merge_content_lists, dict_update.
  rewrite sorted_Permutation. apply elem_of_map_to_list, lookup_union_Some_raw.
  right. split.
  - apply eq_None_not_Some. rewrite dict_lookup_is_Some_gen.
    by rewrite fst_prod_map_id.
  - rewrite fmap_app, fmap_cons. apply dict_lookup_last.
    by rewrite fst_prod_map_id.
Qed.

(** X12: whatever the two lists hold, also with repeated positions,
    [merge_content_lists] returns every position of either list exactly
    once, in ascending order; a position has the document of its last
    pair in the document list, and when the document list does not have
    the position, the text of its last pair in the samples. *)
Theorem merge_content_lists_positions
    (samples : list (Z * string)) (doc_lists : list (Z * Doc)) :
  let out := merge_content_lists samples doc_lists in
  Sorted Z.lt out.*1 ∧
  (∀ p, p ∈ out.*1 ↔ p ∈ samples.*1 ∨ p ∈ doc_lists.*1) ∧
  (∀ l1 l2 p d,
     doc_lists = l1 ++ (p, d) :: l2 → p ∉ l2.*1 → (p, VDoc d) ∈ out) ∧
  (∀ s1 s2 p text,
     samples = s1 ++ (p, text) :: s2 → p ∉ s2.*1 → p ∉ doc_lists.*1 →
     (p, VText text) ∈ out).
Proof.
  simpl. split_and!.
  - unfold merge_content_lists.
    apply sorted_keys_ascending, NoDup_fst_map_to_list.
  - apply merge_content_lists_key_set.
  - intros l1 l2 p d -> Hnin. by apply merge_content_lists_doc.
  - intros s1 s2 p text -> Hnin Hdoc. by apply merge_content_lists_text.
Qed.

(** ** The pipeline with a provider that keeps no contract *)

Lemma zip_positions_keys_elem {A} (samples : list (Z * A)) (ds : list Doc) p :
  p ∈ (zip_positions samples ds).*1 →
  ∃ i x d, samples !! i = Some (p, x) ∧ ds !! i = Some d.
Proof.
  intros ([p' d] & -> & [i Hi]%list_elem_of_lookup)%list_elem_of_fmap.
  apply lookup_zip_with_Some in Hi as ([p'' x] & d' & Heq & ? & ?).
  simplify_eq/=. by exists i, x, d'.
Qed.

Lemma zip_positions_keys_subset {A} (samples : list (Z * A)) (ds : list Doc) p :
  p ∈ (zip_positions samples ds).*1 → p ∈ samples.*1.
Proof.
  intros (i & x & d & Hs & _)%zip_positions_keys_elem.
  apply list_elem_of_fmap. exists (p, x). split; [done|].
  by eapply list_elem_of_lookup_2.
Qed.

Lemma pipeline_doc_lists_keys_subset
    (l : Language) (samples : list (Z * string)) (ds : list Doc) p :
  let docs_to_pipe := (filter_training_samples_by_content samples).1 in
  let empty_docs := (filter_training_samples_by_content samples).2 in
  p ∈ (zip_positions docs_to_pipe ds
       ++ zip_positions empty_docs ((λ _, Doc_ (vocab l)) <$> empty_docs)).*1 →
  p ∈ samples.*1.
Proof.
  simpl. rewrite fmap_app, elem_of_app.
  intros [Hin|Hin]; apply zip_positions_keys_subset in Hin;
    apply list_elem_of_fmap in Hin as (s & -> & Hin);
    apply list_elem_of_filter in Hin as [_ Hin];
    by apply list_elem_of_fmap_2.
Qed.

Lemma merged_documents_any_provider (l : Language) (samples : list (Z * string)) :
  NoDup samples.*1 →
  let docs_to_pipe := (filter_training_samples_by_content samples).1 in
  let empty_docs := (filter_training_samples_by_content samples).2 in
  let out :=
    merge_content_lists samples
      (zip_positions docs_to_pipe (pipe l (docs_to_pipe.*2) 50)
       ++ zip_positions empty_docs ((λ _, Doc_ (vocab l)) <$> empty_docs)) in
  Sorted Z.lt out.*1 ∧ out.*1 ≡ₚ samples.*1 ∧ length out = length samples.
Proof.
  intros Hnd docs_to_pipe empty_docs out.
  destruct (merge_content_lists_keys samples
              (zip_positions docs_to_pipe (pipe l (docs_to_pipe.*2) 50)
               ++ zip_positions empty_docs ((λ _, Doc_ (vocab l)) <$> empty_docs))
              Hnd) as [Hsorted Hperm].
  assert (out.*1 ≡ₚ samples.*1) as Hperm'.
  { apply Hperm. intros p. apply pipeline_doc_lists_keys_subset. }
  split_and!; [done..|].
  by rewrite <-(length_fmap fst out), Hperm', length_fmap.
Qed.

(** X13: for samples with pairwise different positions the pipeline
    returns one entry per sample, with the positions of the input in
    ascending order, whatever the provider answers to the batch call; a
    content bearing sample for which the answer is too short to hold a
    document keeps its text in the output. *)
Theorem attribute_document_list_any_provider
    (config : Config) (l : Language) (samples : list (Z * string)) :
  NoDup samples.*1 →
  let docs_to_pipe := (filter_training_samples_by_content samples).1 in
  ∃ out,
    outcome (attribute_document_list (cls config (Some l)) samples) = inr out ∧
    Sorted Z.lt out.*1 ∧
    out.*1 ≡ₚ samples.*1 ∧
    length out = length samples ∧
    ∀ i p text,
      docs_to_pipe !! i = Some (p, text) →
      length (pipe l (docs_to_pipe.*2) 50) ≤ i →
      (p, VText text) ∈ out.
Proof.
  intros Hnd docs_to_pipe. eexists. rewrite attribute_document_list_unfold.
  split; [done|].
  destruct (merged_documents_any_provider l samples Hnd) as (Hs & Hp & Hlen).
  split_and!; [done..|]. fold docs_to_pipe.
  intros i p text Hi Hshort.
  set (empty_docs := (filter_training_samples_by_content samples).2).
  assert (NoDup (docs_to_pipe.*1 ++ empty_docs.*1)) as Hnd'.
  { unfold docs_to_pipe, empty_docs.
    by rewrite filter_training_samples_by_content_keys. }
  apply NoDup_app in Hnd' as (Hndp & Hdisj & _).
  assert ((p, text) ∈ samples) as Hin.
  { apply list_elem_of_lookup_2 in Hi. by apply list_elem_of_filter in Hi as [_ ?]. }
  apply list_elem_of_split in Hin as (s1 & s2 & Hsplit).
  rewrite Hsplit at 1. apply merge_content_lists_text.
  - rewrite Hsplit, fmap_app, fmap_cons in Hnd. simpl in Hnd.
    by apply NoDup_app in Hnd as (_ & _ & [? _]%NoDup_cons).
  - rewrite fmap_app, elem_of_app. intros [Hzip|Hzip].
    + apply zip_positions_keys_elem in Hzip as (j & x & d & Hj & Hd).
      apply lookup_lt_Some in Hd.
      assert (i = j); [|lia].
      apply (NoDup_lookup (docs_to_pipe.*1) i j p Hndp);
        by rewrite list_lookup_fmap, ?Hi, ?Hj.
    + apply zip_positions_keys_subset in Hzip.
      apply (Hdisj p); [|done]. apply list_elem_of_fmap. exists (p, text).
      split; [done|]. by eapply list_elem_of_lookup_2.
Qed.

Lemma enumerate_texts {A} (xs : list A) : (enumerate xs).*2 = xs.
Proof.
  apply list_eq. intros i.
  rewrite list_lookup_fmap, enumerate_lookup. by destruct (xs !! i).
Qed.

(** X14: the samples that [docs_for_training_data] builds for an
    attribute are the normalized texts of the examples, in their order,
    numbered from 0 on: the positions are pairwise different, as the
    merge needs them. *)
Theorem indexed_training_samples_positions
    (self : SpacyNLP) (training_examples : list Message) (attribute : string) :
  let samples := indexed_training_samples self training_examples attribute in
  samples.*1 = Z.of_nat <$> seq 0 (length training_examples) ∧
  samples.*2 = (λ e, get_text self e attribute) <$> training_examples ∧
  NoDup samples.*1.
Proof.
  simpl. unfold indexed_training_samples.
  rewrite enumerate_keys, enumerate_texts, length_fmap. split_and!; [done..|].
  apply NoDup_fmap; [apply _|apply NoDup_seq].
Qed.

Lemma docs_for_attribute_length
    (config : Config) (l : Language) (training_examples : list Message)
    (attribute : string) (ds : list value) :
  outcome (docs_for_attribute (cls config (Some l)) training_examples attribute)
  = inr ds →
  length ds = length training_examples.
Proof.
  unfold docs_for_attribute.
  set (samples := indexed_training_samples _ training_examples attribute).
  assert (samples.*1 = Z.of_nat <$> seq 0 (length training_examples)) as Hkeys.
  { unfold samples, indexed_training_samples.
    by rewrite enumerate_keys, length_fmap. }
  assert (NoDup samples.*1) as Hnd.
  { rewrite Hkeys. apply NoDup_fmap; [apply _|apply NoDup_seq]. }
  destruct (merged_documents_any_provider l samples Hnd) as (_ & _ & Hlen).
  erewrite outcome_bind_inr; [|by rewrite attribute_document_list_unfold].
  intros [= <-]. rewrite length_fmap. etrans; [exact Hlen|].
  by rewrite <-(length_fmap fst samples), Hkeys, length_fmap, length_seq.
Qed.

(** X15: with a provider at hand, and whatever it answers,
    [docs_for_training_data] returns a dict whose keys are the dense
    featurizable attributes and whose values have one entry per
    example. *)
Theorem docs_for_training_data_aligned
    (config : Config) (l : Language) (training_examples : list Message) :
  ∃ attribute_docs,
    outcome (docs_for_training_data (cls config (Some l)) training_examples)
    = inr attribute_docs ∧
    (∀ attribute,
       is_Some (attribute_docs !! attribute)
       ↔ attribute ∈ DENSE_FEATURIZABLE_ATTRIBUTES) ∧
    (∀ attribute ds,
       attribute_docs !! attribute = Some ds →
       length ds = length training_examples).
Proof.
  destruct (docs_for_attributes_spec config l training_examples
              DENSE_FEATURIZABLE_ATTRIBUTES ∅) as (m & Hm & Hin & Hnin).
  exists m. split_and!; [done| |].
  - intros attribute. split.
    + intros Hsome.
      destruct (decide (attribute ∈ DENSE_FEATURIZABLE_ATTRIBUTES)) as [|Hn];
        [done|].
      rewrite Hnin, lookup_empty in Hsome by done. by destruct Hsome.
    + intros Ha. destruct (Hin _ Ha) as (ds & _ & ->). by eexists.
  - intros attribute ds Hds.
    destruct (decide (attribute ∈ DENSE_FEATURIZABLE_ATTRIBUTES)) as [Ha|Hn].
    + destruct (Hin _ Ha) as (ds' & Hds' & Hm'). simplify_eq.
      by eapply docs_for_attribute_length.
    + by rewrite Hnin, lookup_empty in Hds.
Qed.

(** ** Training with a provider that keeps no contract, and without one *)

Lemma trace_bind_inr {A B} (m : M A) (k : A → M B) a :
  outcome m = inr a → trace (bind m k) = trace m ++ trace (k a).
Proof.
  destruct m as [t [e|a']]; unfold outcome, trace, bind; simpl; intros [= ->].
  by destruct (k a).
Qed.

Lemma docs_for_attribute_trace
    (config : Config) (l : Language) (training_examples : list Message)
    (attribute : string) :
  let self := cls config (Some l) in
  trace (docs_for_attribute self training_examples attribute)
  = [EvPipe (filter (λ text, text ≠ EmptyString)
               ((λ e, get_text self e attribute) <$> training_examples)) 50].
Proof.
  simpl. unfold docs_for_attribute.
  erewrite trace_bind_inr; [|by rewrite attribute_document_list_unfold].
  rewrite attribute_document_list_unfold. unfold trace. simpl.
  rewrite filter_fmap_snd_text. unfold indexed_training_samples.
  by rewrite enumerate_texts.
Qed.

Lemma docs_for_attributes_trace
    (config : Config) (l : Language) (training_examples : list Message)
    (attributes : list string) (attribute_docs : gmap string (list value)) :
  let self := cls config (Some l) in
  trace (docs_for_attributes self training_examples attributes attribute_docs)
  = (λ a, EvPipe (filter (λ text, text ≠ EmptyString)
                    ((λ e, get_text self e a) <$> training_examples)) 50)
      <$> attributes.
Proof.
  simpl. revert attribute_docs.
  induction attributes as [|b attributes IH]; intros attribute_docs; [done|].
  cbn [docs_for_attributes].
  assert (∃ ds, outcome (docs_for_attribute (cls config (Some l))
                           training_examples b) = inr ds) as [ds Hds].
  { unfold docs_for_attribute. rewrite attribute_document_list_unfold. eauto. }
  rewrite (trace_bind_inr _ _ ds Hds), IH.
  by rewrite (docs_for_attribute_trace config l training_examples b).
Qed.

Lemma train_attributes_total
    (attribute_docs : gmap string (list value)) (attributes : list string)
    (training_examples : list Message) :
  (∀ a, a ∈ attributes →
     ∃ ds, attribute_docs !! a = Some ds ∧ length ds = length training_examples) →
  ∃ trained,
    train_attributes attribute_docs attributes training_examples = ret trained ∧
    length trained = length training_examples ∧
    ∀ idx example, training_examples !! idx = Some example →
      ∃ example', trained !! idx = Some example' ∧
        data example' = data example ∧
        (∀ slot, (∀ a, a ∈ attributes → SPACY_DOCS a ≠ slot) →
           docs example' !! slot = docs example !! slot).
Proof.
  revert training_examples.
  induction attributes as [|b attributes IH]; intros training_examples Hm; simpl.
  - exists training_examples. split_and!; [done..|].
    intros idx example Hidx. by exists example.
  - destruct (Hm b) as (dsb & Hb & Hlenb); [by left|].
    destruct (train_examples_spec attribute_docs b dsb 0 training_examples)
      as (cur & Hrun & Hlen & Hcur); [done|simpl; lia|].
    rewrite Hrun. simpl.
    destruct (IH cur) as (trained & Hrun' & Hlen' & Htrained).
    { intros a Ha. rewrite Hlen. apply Hm. by right. }
    exists trained. rewrite Hrun'. split_and!; [done|congruence|].
    intros idx example Hidx.
    destruct (Hcur idx example Hidx) as (db & _ & Hcur').
    destruct (Htrained idx _ Hcur') as (example' & Hex' & Hdata & Hother).
    exists example'. split_and!; [done|by rewrite Hdata, attach_doc_data|].
    intros slot Hslot. rewrite Hother.
    + apply attach_doc_other, Hslot. by left.
    + intros a Ha. apply Hslot. by right.
Qed.

Lemma train_any_provider_run
    (config : Config) (l : Language) (training_examples : list Message) :
  ∃ attribute_docs trained,
    outcome (docs_for_training_data (cls config (Some l)) training_examples)
    = inr attribute_docs ∧
    train_attributes attribute_docs DENSE_FEATURIZABLE_ATTRIBUTES training_examples
    = ret trained ∧
    length trained = length training_examples ∧
    ∀ idx example, training_examples !! idx = Some example →
      ∃ example', trained !! idx = Some example' ∧
        data example' = data example ∧
        (∀ slot, (∀ a, a ∈ DENSE_FEATURIZABLE_ATTRIBUTES → SPACY_DOCS a ≠ slot) →
           docs example' !! slot = docs example !! slot).
Proof.
  destruct (docs_for_attributes_spec config l training_examples
              DENSE_FEATURIZABLE_ATTRIBUTES ∅) as (m & Hm & Hin & _).
  destruct (train_attributes_total m DENSE_FEATURIZABLE_ATTRIBUTES training_examples)
    as (trained & Hrun & Hrest).
  { intros a Ha. destruct (Hin a Ha) as (ds & Hds & Hma).
    exists ds. split; [done|]. by eapply docs_for_attribute_length. }
  by exists m, trained.
Qed.

(** X16: with a provider at hand, and whatever it answers, [train]
    raises nothing (neither subscript of [attribute_docs[attribute][idx]]
    can fail), leaves as many examples as it was given, does not touch
    their texts, and changes no slot but the ones that [SPACY_DOCS] names
    for the dense featurizable attributes. *)
Theorem train_any_provider
    (config : Config) (l : Language) (training_examples : list Message) :
  ∃ trained,
    outcome (train (cls config (Some l)) training_examples) = inr trained ∧
    length trained = length training_examples ∧
    ∀ idx example, training_examples !! idx = Some example →
      ∃ example', trained !! idx = Some example' ∧
        data example' = data example ∧
        (∀ slot, (∀ a, a ∈ DENSE_FEATURIZABLE_ATTRIBUTES → SPACY_DOCS a ≠ slot) →
           docs example' !! slot = docs example !! slot).
Proof.
  destruct (train_any_provider_run config l training_examples)
    as (m & trained & Hm & Hrun & Hrest).
  exists trained. split; [|done].
  unfold train. by rewrite (outcome_bind_inr _ _ m Hm), Hrun.
Qed.

(** X17: the external calls of [train] are one batch call per dense
    featurizable attribute, in the order of the attributes, each with
    batch size 50 on the non-empty normalized texts of the examples in
    their order; [train] never calls the provider on a single text. *)
Theorem train_trace
    (config : Config) (l : Language) (training_examples : list Message) :
  let self := cls config (Some l) in
  trace (train self training_examples)
  = (λ a, EvPipe (filter (λ text, text ≠ EmptyString)
                    ((λ e, get_text self e a) <$> training_examples)) 50)
      <$> DENSE_FEATURIZABLE_ATTRIBUTES.
Proof.
  simpl.
  destruct (train_any_provider_run config l training_examples)
    as (m & trained & Hm & Hrun & _).
  unfold train. rewrite (trace_bind_inr _ _ m Hm), Hrun.
  unfold docs_for_training_data.
  rewrite (docs_for_attributes_trace config l). unfold trace at 1. simpl.
  by rewrite app_nil_r.
Qed.

(** X18: when the component has no provider and there is a dense
    featurizable attribute, [train] raises the [AttributeError] of the
    first batch call, whatever the examples are, also when there is
    none, and makes no external call. *)
Theorem train_without_provider
    (config : Config) (training_examples : list Message) :
  DENSE_FEATURIZABLE_ATTRIBUTES ≠ [] →
  train (cls config None) training_examples
  = raise (AttributeError "'NoneType' object has no attribute 'pipe'").
Proof.
  unfold train, docs_for_training_data.
  by destruct DENSE_FEATURIZABLE_ATTRIBUTES.
Qed.

Lemma process_attributes_no_text
    (self : SpacyNLP) (attributes : list string) (message : Message) :
  (∀ a, a ∈ attributes → truthy (Message_get message a) = false) →
  process_attributes self attributes message = ret message.
Proof.
  induction attributes as [|b attributes IH]; intros Hall; [done|].
  cbn [process_attributes].
  assert (truthy (Message_get message b) = false) as Hb by (apply Hall; by left).
  destruct (Message_get message b) as [text|]; [rewrite Hb|];
    apply IH; intros a Ha; apply Hall; by right.
Qed.

Lemma process_attributes_no_provider
    (config : Config) (attributes : list string) (message : Message) a :
  a ∈ attributes → truthy (Message_get message a) = true →
  process_attributes (cls config None) attributes message
  = raise (TypeError "'NoneType' object is not callable").
Proof.
  induction attributes as [|b attributes IH]; intros Ha Htruthy.
  - by apply elem_of_nil in Ha.
  - cbn [process_attributes].
    destruct (Message_get message b) as [text|] eqn:Hget;
      [destruct (truthy (Some text)) eqn:Hb; [done|]|];
      (apply elem_of_cons in Ha as [->|Ha]; [|by apply IH];
       rewrite Hget in Htruthy; by rewrite ?Hb in Htruthy).
Qed.

(** X19: a message none of whose dense featurizable attributes has a
    non-empty text comes back from [process] as it is, without any
    external call, whatever the component is; and when some attribute has
    a non-empty text and the component has no provider, [process] raises
    the [TypeError] of calling [None], without any external call. *)
Theorem process_edge_cases (self : SpacyNLP) (message : Message) :
  ((∀ a, a ∈ DENSE_FEATURIZABLE_ATTRIBUTES →
      truthy (Message_get message a) = false) →
   process self message = ret message) ∧
  (∀ a, a ∈ DENSE_FEATURIZABLE_ATTRIBUTES →
     truthy (Message_get message a) = true →
     nlp self = None →
     process self message
     = raise (TypeError "'NoneType' object is not callable")).
Proof.
  split.
  - apply process_attributes_no_text.
  - intros a Ha Htruthy Hnone. destruct self as [config nlp']. simpl in Hnone.
    subst nlp'. by eapply process_attributes_no_provider.
Qed.

(** ** Batching against the single call *)

Lemma docs_for_attribute_closed
    (config : Config) (l : Language) (training_examples : list Message)
    (attribute : string) :
  (∀ texts batch_size, pipe l texts batch_size = call l <$> texts) →
  let self := cls config (Some l) in
  outcome (docs_for_attribute self training_examples attribute)
  = inr ((λ e, VDoc (if decide (get_text self e attribute = EmptyString)
                     then Doc_ (vocab l)
                     else call l (get_text self e attribute)))
           <$> training_examples).
Proof.
  intros Hcall self. subst self.
  assert (∀ texts batch_size, length (pipe l texts batch_size) = length texts)
    as Hlen by (intros; by rewrite Hcall, length_fmap).
  destruct (docs_for_attribute_spec config l training_examples attribute Hlen)
    as (ds & Hds & Hlen' & Hall).
  rewrite Hds. f_equal. apply list_eq. intros i. rewrite list_lookup_fmap.
  destruct (training_examples !! i) as [e|] eqn:He; simpl.
  - destruct (Hall i e He) as (d & Hd & Hempty & Hcontent). rewrite Hd.
    do 2 f_equal. case_decide as Ht; [by apply Hempty|].
    destruct (Hcontent Ht) as (j & Hj & Hp).
    rewrite Hcall, list_lookup_fmap, Hj in Hp. by injection Hp as <-.
  - apply lookup_ge_None. rewrite Hlen'. by apply lookup_ge_None.
Qed.

(** X20: for a provider whose batch call does to each text what its
    single call does, one round of [docs_for_training_data] yields, for
    every example in order, the empty document [Doc(vocab)] when the
    normalized text is empty and else the document of the single call on
    the normalized text: the partition, the batch call and the merge
    change nothing but the number of calls. *)
Theorem docs_for_attribute_as_single_calls
    (config : Config) (l : Language) (training_examples : list Message)
    (attribute : string) :
  (∀ texts batch_size, pipe l texts batch_size = call l <$> texts) →
  let self := cls config (Some l) in
  outcome (docs_for_attribute self training_examples attribute)
  = inr ((λ e, VDoc (if decide (get_text self e attribute = EmptyString)
                     then Doc_ (vocab l)
                     else call l (get_text self e attribute)))
           <$> training_examples).
Proof. apply docs_for_attribute_closed. Qed.

Lemma process_attributes_step
    (config : Config) (l : Language) (attribute : string)
    (attributes : list string) (message : Message) :
  (∀ text, text ≠ EmptyString → doc_tokens (call l text) ≠ []) →
  let self := cls config (Some l) in
  outcome (process_attributes self (attribute :: attributes) message)
  = outcome
      (process_attributes self attributes
         (attach_doc attribute
            (VDoc (if decide (get_text self message attribute = EmptyString)
                   then Doc_ (vocab l)
                   else call l (get_text self message attribute)))
            message)).
Proof.
  intros Htok self. subst self. cbn [process_attributes]. unfold get_text.
  destruct (Message_get message attribute) as [[|c text]|] eqn:Hget.
  - simpl truthy. cbv iota.
    assert (preprocess_text (cls config (Some l)) (Some EmptyString) = EmptyString)
      as -> by (unfold preprocess_text; simpl; by destruct (case_sensitive config)).
    by rewrite decide_True by done.
  - simpl truthy. cbv iota.
    set (text' := preprocess_text (cls config (Some l)) (Some (String c text))).
    assert (text' ≠ EmptyString) as Hne.
    { unfold text', preprocess_text. simpl. by destruct (case_sensitive config). }
    rewrite decide_False by done.
    erewrite outcome_bind_inr; [|by rewrite doc_for_text_some].
    fold text'. unfold attach_doc. rewrite bool_decide_true; [done|].
    simpl. pose proof (Htok text' Hne). by destruct (doc_tokens (call l text')).
  - assert (preprocess_text (cls config (Some l)) None = EmptyString)
      as -> by (unfold preprocess_text; simpl; by destruct (case_sensitive config)).
    by rewrite decide_True by done.
Qed.

Lemma train_attributes_as_process
    (config : Config) (l : Language) (attribute_docs : gmap string (list value))
    (attributes : list string) (training_examples : list Message) :
  (∀ text, text ≠ EmptyString → doc_tokens (call l text) ≠ []) →
  let self := cls config (Some l) in
  (∀ a, a ∈ attributes →
     ∃ ds, attribute_docs !! a = Some ds ∧
       length ds = length training_examples ∧
       ∀ idx e, training_examples !! idx = Some e →
         ds !! idx
         = Some (VDoc (if decide (get_text self e a = EmptyString)
                       then Doc_ (vocab l)
                       else call l (get_text self e a)))) →
  ∃ trained,
    train_attributes attribute_docs attributes training_examples = ret trained ∧
    Forall2 (λ e e', outcome (process_attributes self attributes e) = inr e')
      training_examples trained.
Proof.
  intros Htok self. subst self. revert training_examples.
  induction attributes as [|b attributes IH]; intros training_examples Hm.
  - exists training_examples. split; [done|].
    apply Forall2_same_length_lookup. split; [done|].
    intros i e e' He He'. simpl. congruence.
  - destruct (Hm b) as (dsb & Hb & Hlenb & Hdsb); [by left|].
    destruct (train_examples_spec attribute_docs b dsb 0 training_examples)
      as (cur & Hrun & Hlen & Hcur); [done|simpl; lia|].
    destruct (IH cur) as (trained & Hrun' & Hall).
    { intros a Ha. destruct (Hm a) as (ds & Hds & Hlends & Hlook); [by right|].
      exists ds. split_and!; [done|congruence|].
      intros idx e1 He1.
      destruct (lookup_lt_is_Some_2 training_examples idx) as [e He].
      { rewrite <-Hlen. by eapply lookup_lt_Some. }
      destruct (Hcur idx e He) as (d & _ & Hcur'). simplify_eq.
      rewrite (Hlook idx e He). unfold get_text, Message_get.
      by rewrite attach_doc_data. }
    exists trained. cbn [train_attributes]. rewrite Hrun.
    split; [simpl; by rewrite Hrun'|].
    apply Forall2_same_length_lookup in Hall as [Hlen' Hall].
    apply Forall2_same_length_lookup. split; [congruence|].
    intros i e e' He He'.
    destruct (Hcur i e He) as (d & Hd & Hcur'). simpl in Hd.
    rewrite (Hdsb i e He) in Hd. injection Hd as <-.
    rewrite (process_attributes_step config l b attributes e Htok).
    by apply (Hall i _ e' Hcur' He').
Qed.

(** X21: for a provider whose batch call does to each text what its
    single call does and whose documents for non-empty texts have tokens,
    [train] leaves every example as [process] leaves it when it is run on
    that example alone: training and inference set the same documents in
    the same slots. *)
Theorem train_as_process
    (config : Config) (l : Language) (training_examples : list Message) :
  (∀ texts batch_size, pipe l texts batch_size = call l <$> texts) →
  (∀ text, text ≠ EmptyString → doc_tokens (call l text) ≠ []) →
  let self := cls config (Some l) in
  ∃ trained,
    outcome (train self training_examples) = inr trained ∧
    Forall2 (λ example example', outcome (process self example) = inr example')
      training_examples trained.
Proof.
  intros Hcall Htok self. subst self.
  destruct (docs_for_attributes_spec config l training_examples
              DENSE_FEATURIZABLE_ATTRIBUTES ∅) as (m & Hm & Hin & _).
  destruct (train_attributes_as_process config l m DENSE_FEATURIZABLE_ATTRIBUTES
              training_examples Htok) as (trained & Hrun & Hall).
  { intros a Ha. destruct (Hin a Ha) as (ds & Hds & Hma).
    rewrite (docs_for_attribute_closed config l training_examples a Hcall) in Hds.
    injection Hds as <-. eexists. split_and!; [done|by rewrite length_fmap|].
    intros idx e He. by rewrite list_lookup_fmap, He. }
  exists trained. split; [|done].
  unfold train. by rewrite (outcome_bind_inr _ _ m Hm), Hrun.
Qed.

End SpacyNLP.

(** * The properties at concrete inputs *)

Lemma one_token_nlp_one_doc_per_text texts batch_size :
  length (pipe one_token_nlp texts batch_size) = length texts.
Proof. simpl. by rewrite length_fmap. Qed.

Lemma rasa_spacy_docs_inj a b :
  a ∈ rasa_attributes → b ∈ rasa_attributes →
  rasa_spacy_docs a = rasa_spacy_docs b → a = b.
Proof.
  unfold rasa_attributes. rewrite !elem_of_cons, !elem_of_nil.
  intros [->|[->|[->|[]]]] [->|[->|[->|[]]]]; by vm_compute.
Qed.

(** Scenario B: no model name and the language [en]. *)
Example check_model_fallback_en :
  _check_model_fallback rasa_docs_url_components None "en" true
  = ([EvDeprecationWarning
        (fallback_warning_message "en_core_web_md")
        (rasa_docs_url_components +:+ "#spacynlp")],
     inr "en_core_web_md") ∧
  cache_key rasa_docs_url_components "SpacyNLP" defaults "en"
  = ([], inr "SpacyNLP-en_core_web_md").
Proof. split; by vm_compute. Qed.

(** Scenario C: no model name and a language without fallback. *)
Example check_model_fallback_xx :
  _check_model_fallback rasa_docs_url_components None "xx" true
  = raise (InvalidModelError (no_fallback_message rasa_docs_url_components "xx")).
Proof. by vm_compute. Qed.

(** Scenario D: a handle that was not read from disk. *)
Example ensure_proper_language_model_stub :
  ensure_proper_language_model
    (Some {| path := None; lang := "en"; vocab := one_token_vocab;
             call := one_token_doc; pipe := λ texts _, one_token_doc <$> texts |})
  = raise (Exception (stub_provider_message "en")).
Proof. done. Qed.


Lemma attribute_document_list_order_witness :
  let samples := [(7%Z, "b"); (2%Z, EmptyString); (4%Z, "a")] in
  NoDup samples.*1 ∧
  (∀ texts batch_size,
     length (pipe one_token_nlp texts batch_size) = length texts) ∧
  ∃ out,
    outcome (attribute_document_list one_token_component samples) = inr out ∧
    Sorted Z.lt out.*1 ∧
    out.*1 ≡ₚ samples.*1.
Proof.
  intros samples.
  assert (NoDup samples.*1) as Hnd by (apply (bool_decide_unpack _); by vm_compute).
  split_and!; [done|apply one_token_nlp_one_doc_per_text|].
  destruct (attribute_document_list_order defaults one_token_nlp samples Hnd
              one_token_nlp_one_doc_per_text) as (out & Hout & Hs & Hp & _).
  by exists out.
Defined.

(** At a concrete input the pipeline indeed sorts. *)
Example attribute_document_list_unsorted :
  outcome (attribute_document_list one_token_component
             [(7%Z, "b"); (2%Z, EmptyString); (4%Z, "a")])
  = inr [(2%Z, VDoc (Doc_ one_token_vocab));
         (4%Z, VDoc (one_token_doc "a"));
         (7%Z, VDoc (one_token_doc "b"))].
Proof. by vm_compute. Qed.

Lemma attribute_document_list_all_empty_witness :
  let samples := [(0%Z, EmptyString); (1%Z, EmptyString)] in
  (∀ p text, (p, text) ∈ samples → text = EmptyString) ∧
  trace (attribute_document_list one_token_component samples) = [EvPipe [] 50] ∧
  pipe_calls (trace (attribute_document_list one_token_component samples)) = 1 ∧
  outcome (attribute_document_list one_token_component []) = inr [].
Proof.
  intros samples.
  assert (∀ p text, (p, text) ∈ samples → text = EmptyString) as Hall.
  { intros p text. unfold samples. rewrite !elem_of_cons, elem_of_nil.
    by intros [[= _ ->]|[[= _ ->]|[]]]. }
  split; [done|].
  exact (attribute_document_list_all_empty defaults one_token_nlp samples Hall).
Defined.

(** C2, as it is worded, fails: on samples whose texts are all empty, and
    on no samples at all, [nlp.pipe] is called. *)
Lemma all_empty_texts_pipe_is_called :
  pipe_calls (trace (attribute_document_list one_token_component
                       [(0%Z, EmptyString); (1%Z, EmptyString)])) ≠ 0 ∧
  pipe_calls (trace (attribute_document_list one_token_component [])) ≠ 0.
Proof. split; by vm_compute. Qed.

Lemma train_attachment_by_tokens_witness :
  let training_examples := [text_message "Hi"; text_message EmptyString] in
  (∀ a b, a ∈ rasa_attributes → b ∈ rasa_attributes →
     rasa_spacy_docs a = rasa_spacy_docs b → a = b) ∧
  (∀ texts batch_size,
     length (pipe one_token_nlp texts batch_size) = length texts) ∧
  ∃ trained,
    outcome (train rasa_attributes rasa_spacy_docs one_token_component
               training_examples) = inr trained ∧
    length trained = length training_examples.
Proof.
  intros training_examples.
  split_and!; [apply rasa_spacy_docs_inj|apply one_token_nlp_one_doc_per_text|].
  destruct (train_attachment_by_tokens rasa_attributes rasa_spacy_docs defaults
              one_token_nlp training_examples rasa_spacy_docs_inj
              one_token_nlp_one_doc_per_text)
    as (trained & Hrun & Hlen & _).
  by exists trained.
Defined.

Lemma tokenless_nlp_one_doc_per_text texts batch_size :
  length (pipe tokenless_nlp texts batch_size) = length texts.
Proof. simpl. by rewrite length_fmap. Qed.

(** C5, as it is worded, fails: with a provider that answers every text
    with one document, in order, but a document without tokens, the text
    Hi normalizes to the non-empty hi and [train] leaves the slot of the
    example empty. *)
Lemma train_non_empty_text_not_attached :
  let self := cls defaults (Some tokenless_nlp) in
  get_text self (text_message "Hi") "text" = "hi" ∧
  pipe tokenless_nlp ["hi"] 50 = [Doc_ one_token_vocab] ∧
  outcome (train rasa_attributes rasa_spacy_docs self [text_message "Hi"])
  = inr [text_message "Hi"] ∧
  docs (text_message "Hi") !! rasa_spacy_docs "text" = None.
Proof. by vm_compute. Qed.

(** At a concrete input [train] sets the document of the text and leaves
    the example without text as it is. *)
Example train_hi_and_empty :
  outcome (train rasa_attributes rasa_spacy_docs one_token_component
             [text_message "Hi"; text_message EmptyString])
  = inr [Message_set (text_message "Hi") "text_spacy_doc"
           (VDoc (one_token_doc "hi"));
         text_message EmptyString].
Proof. by vm_compute. Qed.

Lemma process_attachment_witness :
  let message := text_message "Hi" in
  (∀ a b, a ∈ rasa_attributes → b ∈ rasa_attributes →
     rasa_spacy_docs a = rasa_spacy_docs b → a = b) ∧
  ∃ message',
    outcome (process rasa_attributes rasa_spacy_docs one_token_component message)
    = inr message' ∧
    data message' = data message.
Proof.
  intros message. split; [apply rasa_spacy_docs_inj|].
  destruct (process_attachment rasa_attributes rasa_spacy_docs defaults
              one_token_nlp message rasa_spacy_docs_inj)
    as (message' & Hrun & Hdata & _).
  by exists message'.
Defined.

(** C8, as it is worded, fails: the text of the message is there, it is
    the empty string, and [process] neither calls the provider nor sets
    the slot. *)
Lemma process_empty_text_not_attached :
  let message := text_message EmptyString in
  Message_get message "text" = Some EmptyString ∧
  trace (process rasa_attributes rasa_spacy_docs one_token_component message) = [] ∧
  outcome (process rasa_attributes rasa_spacy_docs one_token_component message)
  = inr message ∧
  docs message !! rasa_spacy_docs "text" = None.
Proof. by vm_compute. Qed.

(** * The further properties at concrete inputs *)

Lemma one_token_nlp_pipe_is_call texts batch_size :
  pipe one_token_nlp texts batch_size = call one_token_nlp <$> texts.
Proof. done. Qed.

Lemma one_token_nlp_call_tokens text :
  text ≠ EmptyString → doc_tokens (call one_token_nlp text) ≠ [].
Proof. by destruct text. Qed.

Lemma check_model_fallback_stable_witness :
  outcome (_check_model_fallback rasa_docs_url_components None "en" true)
  = inr "en_core_web_md" ∧
  "en_core_web_md" ≠ EmptyString ∧
  ∀ language_name' warn',
    _check_model_fallback rasa_docs_url_components (Some "en_core_web_md")
      language_name' warn'
    = ret "en_core_web_md".
Proof.
  assert (outcome (_check_model_fallback rasa_docs_url_components None "en" true)
          = inr "en_core_web_md") as H by (by vm_compute).
  split; [done|].
  exact (check_model_fallback_stable rasa_docs_url_components None "en" true
           "en_core_web_md" H).
Defined.

Lemma cache_key_fallback_explicit_witness :
  let component_meta' :=
    {| model := Some "en_core_web_md"; case_sensitive := true |} in
  truthy (model defaults) = false ∧
  fallback_mapping !! "en" = Some "en_core_web_md" ∧
  model component_meta' = Some "en_core_web_md" ∧
  cache_key rasa_docs_url_components "SpacyNLP" defaults "en"
  = cache_key rasa_docs_url_components "SpacyNLP" component_meta' "xx".
Proof.
  intros component_meta'.
  assert (fallback_mapping !! "en" = Some "en_core_web_md") as H
    by (by vm_compute).
  split_and!; [done..|].
  exact (cache_key_fallback_explicit rasa_docs_url_components "SpacyNLP"
           defaults component_meta' "en" "xx" "en_core_web_md"
           eq_refl H eq_refl).
Defined.

Lemma load_uncached_usable_witness :
  let component := cls defaults (Some one_token_nlp) in
  outcome (load rasa_docs_url_components one_model_spacy_load defaults "en" None)
  = inr component ∧
  component_config component = defaults ∧
  ∃ l, nlp component = Some l ∧ is_Some (path l).
Proof.
  intros component.
  assert (outcome (load rasa_docs_url_components one_model_spacy_load
                     defaults "en" None) = inr component) as H
    by (by vm_compute).
  split; [done|].
  destruct (load_uncached_usable rasa_docs_url_components one_model_spacy_load
              defaults "en" component H)
    as (Hconfig & model_name & l & _ & _ & Hpath & Hnlp & _).
  split; [done|]. by exists l.
Defined.

Lemma load_uncached_errors_witness :
  let e := OtherException "ModuleNotFoundError" "No module named 'spacy'" in
  outcome (load rasa_docs_url_components no_spacy_load defaults "en" None)
  = inl e ∧
  ((e = InvalidModelError (no_fallback_message rasa_docs_url_components "en") ∧
    truthy (model defaults) = false ∧ fallback_mapping !! "en" = None) ∨
   ∃ model_name,
     outcome (_check_model_fallback rasa_docs_url_components (model defaults)
                "en" true) = inr model_name ∧
     ((no_spacy_load model_name = OSError ∧
       e = InvalidModelError
             (model_not_available_message rasa_docs_url_components model_name)) ∨
      no_spacy_load model_name = Raises e ∨
      (no_spacy_load model_name = Loaded None ∧
       e = Exception null_provider_message) ∨
      (∃ l, no_spacy_load model_name = Loaded (Some l) ∧ path l = None ∧
            e = Exception (stub_provider_message (lang l))))).
Proof.
  intros e.
  assert (outcome (load rasa_docs_url_components no_spacy_load
                     defaults "en" None) = inl e) as H by (by vm_compute).
  split; [done|].
  exact (load_uncached_errors rasa_docs_url_components no_spacy_load
           defaults "en" e H).
Defined.

(** At a concrete input: a model that is not installed. *)
Example load_model_not_installed :
  load rasa_docs_url_components one_model_spacy_load
    {| model := Some "my_model"; case_sensitive := false |} "en" None
  = ([EvSpacyLoad "my_model"],
     inl (InvalidModelError
            (model_not_available_message rasa_docs_url_components "my_model"))).
Proof. by vm_compute. Qed.

Lemma create_usable_witness :
  let override_defaults := λ _ custom : Config, custom in
  let component := cls defaults (Some one_token_nlp) in
  outcome (create rasa_docs_url_components one_model_spacy_load
             override_defaults defaults "en") = inr component ∧
  component_config component = defaults ∧
  ∃ l, nlp component = Some l ∧ is_Some (path l).
Proof.
  intros override_defaults component.
  assert (outcome (create rasa_docs_url_components one_model_spacy_load
                     override_defaults defaults "en") = inr component) as H
    by (by vm_compute).
  split; [done|].
  destruct (create_usable rasa_docs_url_components one_model_spacy_load
              override_defaults defaults "en" component H)
    as (_ & Hconfig & Hnlp).
  by split.
Defined.

Lemma attribute_document_list_any_provider_witness :
  let samples := [(7%Z, "b"); (2%Z, EmptyString); (4%Z, "a")] in
  NoDup samples.*1 ∧
  ∃ out,
    outcome (attribute_document_list (cls defaults (Some silent_nlp)) samples)
    = inr out ∧
    Sorted Z.lt out.*1 ∧
    length out = length samples.
Proof.
  intros samples.
  assert (NoDup samples.*1) as Hnd by (apply (bool_decide_unpack _); by vm_compute).
  split; [done|].
  destruct (attribute_document_list_any_provider defaults silent_nlp samples Hnd)
    as (out & Hout & Hs & _ & Hlen & _).
  by exists out.
Defined.

(** At a concrete input: what a provider did not answer stays a text. *)
Example attribute_document_list_silent :
  outcome (attribute_document_list (cls defaults (Some silent_nlp))
             [(7%Z, "b"); (2%Z, EmptyString); (4%Z, "a")])
  = inr [(2%Z, VDoc (Doc_ one_token_vocab)); (4%Z, VText "a"); (7%Z, VText "b")].
Proof. by vm_compute. Qed.

Lemma train_without_provider_witness :
  rasa_attributes ≠ [] ∧
  train rasa_attributes rasa_spacy_docs (cls defaults None) [text_message "Hi"]
  = raise (AttributeError "'NoneType' object has no attribute 'pipe'").
Proof.
  assert (rasa_attributes ≠ []) as H by done.
  split; [done|].
  exact (train_without_provider rasa_attributes rasa_spacy_docs defaults
           [text_message "Hi"] H).
Defined.

Lemma docs_for_attribute_as_single_calls_witness :
  (∀ texts batch_size,
     pipe one_token_nlp texts batch_size = call one_token_nlp <$> texts) ∧
  outcome (docs_for_attribute one_token_component
             [text_message "Hi"; text_message EmptyString] "text")
  = inr [VDoc (one_token_doc "hi"); VDoc (Doc_ one_token_vocab)].
Proof.
  split; [apply one_token_nlp_pipe_is_call|].
  exact (docs_for_attribute_as_single_calls defaults one_token_nlp
           [text_message "Hi"; text_message EmptyString] "text"
           one_token_nlp_pipe_is_call).
Defined.

Lemma train_as_process_witness :
  let training_examples := [text_message "Hi"; text_message EmptyString] in
  (∀ texts batch_size,
     pipe one_token_nlp texts batch_size = call one_token_nlp <$> texts) ∧
  (∀ text, text ≠ EmptyString → doc_tokens (call one_token_nlp text) ≠ []) ∧
  ∃ trained,
    outcome (train rasa_attributes rasa_spacy_docs one_token_component
               training_examples) = inr trained ∧
    Forall2
      (λ example example',
         outcome (process rasa_attributes rasa_spacy_docs one_token_component
                    example) = inr example')
      training_examples trained.
Proof.
  intros training_examples.
  split_and!; [apply one_token_nlp_pipe_is_call|apply one_token_nlp_call_tokens|].
  exact (train_as_process rasa_attributes rasa_spacy_docs defaults one_token_nlp
           training_examples one_token_nlp_pipe_is_call
           one_token_nlp_call_tokens).
Defined.
